(** * Call-monitoring relay (index.js): a shallow embedding and its properties

    The program watches a dashboard page for call rows, keeps a set of the
    call ids it has already handled, sends an instant text alert for each new
    call and, twenty seconds later, downloads the recording, converts it and
    posts it, deleting the alert afterwards.

    Strings are JavaScript strings restricted to code units below 256, one
    [ascii] per code unit.  Network, browser, file-system and ffmpeg calls are
    answered by an explicit environment; every call the program issues is
    recorded in a trace. *)

From Stdlib Require Import Ascii String.
From stdpp Require Import base list gmap strings pretty.

(** ** JavaScript string primitives used by the program *)

Module Js.

(** WhiteSpace and LineTerminator code units below 256: TAB, LF, VT, FF, CR,
    SP and NBSP.  [String.prototype.trim] and the regular-expression class
    [\s] both use this set. *)
Definition isWhiteSpace (c : ascii) : bool :=
  match nat_of_ascii c with
  | 9 | 10 | 11 | 12 | 13 | 32 | 160 => true
  | _ => false
  end.

(** The regular-expression class [\d]. *)
Definition isDigit (c : ascii) : bool :=
  let n := nat_of_ascii c in (48 <=? n) && (n <=? 57).

(** Case conversion, code unit by code unit: the ASCII letters and the
    Latin-1 letters whose other case is again a single code unit below 256.
    Upper-casing turns code unit 223 (sharp s) into the two letters SS, see
    [upperOf].  Code units 181 and 255 have an upper case above 255, which
    these strings cannot hold; they stay as they are. *)
Definition upperChar (c : ascii) : ascii :=
  let n := nat_of_ascii c in
  if (97 <=? n) && (n <=? 122) then ascii_of_nat (n - 32)
  else if (224 <=? n) && (n <=? 254) && negb (n =? 247) then ascii_of_nat (n - 32)
  else c.

Definition lowerChar (c : ascii) : ascii :=
  let n := nat_of_ascii c in
  if (65 <=? n) && (n <=? 90) then ascii_of_nat (n + 32)
  else if (192 <=? n) && (n <=? 222) && negb (n =? 215) then ascii_of_nat (n + 32)
  else c.

Fixpoint mapChars (f : ascii -> ascii) (s : string) : string :=
  match s with
  | EmptyString => EmptyString
  | String c r => String (f c) (mapChars f r)
  end.

(** What one code unit becomes under [toUpperCase]. *)
Definition upperOf (c : ascii) : string :=
  if nat_of_ascii c =? 223 then "SS" else String (upperChar c) EmptyString.

Fixpoint toUpperCase (s : string) : string :=
  match s with
  | EmptyString => EmptyString
  | String c r => upperOf c +:+ toUpperCase r
  end.

Definition toLowerCase : string -> string := mapChars lowerChar.

Fixpoint existsChar (p : ascii -> bool) (s : string) : bool :=
  match s with
  | EmptyString => false
  | String c r => p c || existsChar p r
  end.

Fixpoint forallChar (p : ascii -> bool) (s : string) : bool :=
  match s with
  | EmptyString => true
  | String c r => p c && forallChar p r
  end.

Fixpoint take (n : nat) (s : string) : string :=
  match n, s with
  | S n', String c r => String c (take n' r)
  | _, _ => EmptyString
  end.

Fixpoint drop (n : nat) (s : string) : string :=
  match n, s with
  | S n', String _ r => drop n' r
  | _, _ => s
  end.

(** [s.substring(indexStart, indexEnd)]: both indices are clamped to the
    length and swapped when out of order. *)
Definition substring (s : string) (indexStart indexEnd : nat) : string :=
  let len := String.length s in
  let a := Nat.min indexStart len in
  let b := Nat.min indexEnd len in
  take (Nat.max a b - Nat.min a b) (drop (Nat.min a b) s).

(** [s.substring(indexStart)]: up to the end of the string. *)
Definition substringFrom (s : string) (indexStart : nat) : string :=
  substring s indexStart (String.length s).

Fixpoint trimStart (s : string) : string :=
  match s with
  | EmptyString => EmptyString
  | String c r => if isWhiteSpace c then trimStart r else s
  end.

Fixpoint trimEnd (s : string) : string :=
  match s with
  | EmptyString => EmptyString
  | String c r =>
      match trimEnd r with
      | EmptyString => if isWhiteSpace c then EmptyString else String c EmptyString
      | r' => String c r'
      end
  end.

Definition trim (s : string) : string := trimEnd (trimStart s).

Fixpoint startsWith (p s : string) : bool :=
  match p, s with
  | EmptyString, _ => true
  | String a p', String b s' => if ascii_dec a b then startsWith p' s' else false
  | String _ _, EmptyString => false
  end.

(** [s.includes(needle)] *)
Fixpoint includes (s needle : string) : bool :=
  startsWith needle s ||
  match s with
  | EmptyString => false
  | String _ r => includes r needle
  end.

(** [s.split(sep)] for a one-character separator; the result is never
    empty, and [''.split(' ')] is [['']]. *)
Fixpoint split (sep : ascii) (s : string) : list string :=
  match s with
  | EmptyString => [EmptyString]
  | String c r =>
      if ascii_dec c sep then EmptyString :: split sep r
      else match split sep r with
           | h :: t => String c h :: t
           | [] => [String c EmptyString]
           end
  end.

(** [parts.join(sep)] *)
Fixpoint join (sep : string) (parts : list string) : string :=
  match parts with
  | [] => EmptyString
  | [p] => p
  | p :: rest => p +:+ sep +:+ join sep rest
  end.

(** [s.replace(pat, by)] with a string pattern: only the first occurrence
    is replaced. *)
Fixpoint replace (s pat by_ : string) : string :=
  if startsWith pat s then by_ +:+ drop (String.length pat) s
  else match s with
       | EmptyString => EmptyString
       | String c r => String c (replace r pat by_)
       end.

End Js.

(** ** Effects: calls issued to the outside world, and a state/exception monad *)

(** A JavaScript error as the program looks at it:
    [e.response?.data?.description] and [e.message]. *)
Record JsError := { description : option string; message : string }.

(** What the [catch] blocks log: [e.response?.data?.description || e.message]. *)
Definition errorText (e : JsError) : string :=
  match description e with
  | Some d => if decide (d = "") then message e else d
  | None => message e
  end.

(** The settlement of an awaited promise. *)
Inductive Outcome (A : Type) :=
| Resolved (a : A)
| Rejected (e : JsError).
Arguments Resolved {A} a.
Arguments Rejected {A} e.

(** Every call the program issues to a collaborator.  The destination chat,
    the bot token and the reply markup are configuration constants and are
    left out; log lines are recorded without their leading pictograph. *)
Inductive Call :=
| SendMessage (text : string)
| SendAudio (caption filePath : string)
| DeleteMessage (messageId : Z)
| HttpGet (url cookieHeader : string)
| WriteFile (filePath : string)
| Ffmpeg (input output : string)
| Unlink (filePath : string)
| SetTimeout (ms : Z)
| BrowserLaunch
| BrowserClose
| PageGoto (url : string)
| PageType (input : nat) (text : string)
| PageClick
| LogInfo (line : string)
| LogError (line : string).

Global Instance Call_eq_dec : EqDecision Call.
Proof. solve_decision. Defined.

(** The part of the world the program changes: the files it created and
    the calls issued so far (oldest first). *)
Record World := { files : gset string; trace : list Call }.

Inductive Result (A : Type) :=
| Ok (a : A)
| Throw (e : JsError).
Arguments Ok {A} a.
Arguments Throw {A} e.

Definition M (A : Type) : Type := World -> Result A * World.

Definition ret {A} (a : A) : M A := fun w => (Ok a, w).

Definition bind {A B} (m : M A) (k : A -> M B) : M B :=
  fun w => match m w with
           | (Ok a, w') => k a w'
           | (Throw e, w') => (Throw e, w')
           end.

Definition throw {A} (e : JsError) : M A := fun w => (Throw e, w).

(** [try { body } catch (e) { handler e }] *)
Definition tryCatch {A} (body : M A) (handler : JsError -> M A) : M A :=
  fun w => match body w with
           | (Ok a, w') => (Ok a, w')
           | (Throw e, w') => handler e w'
           end.

Declare Scope js_scope.
Delimit Scope js_scope with js.
Notation "'let*' x := m 'in' k" := (bind m (fun x => k))
  (at level 10, x name, m at level 100, k at level 200) : js_scope.
Notation "m ;; k" := (bind m (fun _ => k))
  (at level 100, k at level 200, right associativity) : js_scope.
Local Open Scope js_scope.

Definition emit (c : Call) : M unit :=
  fun w => (Ok tt, {| files := files w; trace := trace w ++ [c] |}).

(** [await p] for a promise the environment settles. *)
Definition await {A} (o : Outcome A) : M A :=
  match o with
  | Resolved a => ret a
  | Rejected e => throw e
  end.

Definition newError (msg : string) : JsError :=
  {| description := None; message := msg |}.

(** [fs.writeFileSync(path, ...)], taken to succeed: the directory of the
    module exists and is writable, and the file name names a file in it. *)
Definition writeFileSync (path : string) : M unit :=
  fun w => (Ok tt, {| files := {[path]} ∪ files w; trace := trace w ++ [WriteFile path] |}).

(** [fs.unlinkSync(path)]: throws when the file does not exist. *)
Definition unlinkSync (path : string) : M unit :=
  fun w =>
    let w' := {| files := files w ∖ {[path]}; trace := trace w ++ [Unlink path] |} in
    if decide (path ∈ files w) then (Ok tt, w')
    else (Throw (newError ("ENOENT: no such file or directory, unlink '" +:+ path +:+ "'")),
          {| files := files w; trace := trace w ++ [Unlink path] |}).

Definition emptyWorld : World := {| files := ∅; trace := [] |}.

(** ** Configuration and tables (env.js, countries.js) *)

(** [env.js] and [countries.js] are not part of the sources at hand: the
    credentials, the two country tables and the pictographs of the message
    templates are taken as parameters. *)
Record Config := {
  USERNAME : string;
  PASSWORD : string;
  COUNTRY_NAME_TO_CODE : gmap string string;
  COUNTRY_FLAGS : gmap string string;
  glyphGlobe : string;
  glyphPhone : string;
  glyphBolt : string;
  glyphHourglass : string;
  glyphPlay : string;
  glyphMaker : string
}.

Definition nl : string := String "010"%char EmptyString.

(** ** Helper functions *)

Section Helpers.
Variable cfg : Config.

(** [COUNTRY_FLAGS[countryCode] || globe]; a missing code is the property
    name [undefined], a missing or empty flag is falsy. *)
Definition getCountryFlag (countryName : string) : string :=
  let countryNameUpper := Js.toUpperCase (Js.trim countryName) in
  let countryCode := COUNTRY_NAME_TO_CODE cfg !! countryNameUpper in
  match COUNTRY_FLAGS cfg !! default "undefined" countryCode with
  | Some flag => if decide (flag = "") then glyphGlobe cfg else flag
  | None => glyphGlobe cfg
  end.

End Helpers.

(** [maskNumber]: three leading characters, three stars, four trailing
    characters, for trimmed strings longer than seven. *)
Definition maskNumber (number : string) : string :=
  let numStr := Js.trim number in
  if 7 <? String.length numStr
  then Js.substring numStr 0 3 +:+ "***" +:+ Js.substringFrom numStr (String.length numStr - 4)
  else numStr.

(** The loop test of [extractCountryFromTermination]:
    [['MOBILE','FIXED'].includes(part.toUpperCase()) || /\d/.test(part)]. *)
Definition isStopPart (part : string) : bool :=
  bool_decide (Js.toUpperCase part ∈ ["MOBILE"; "FIXED"]) || Js.existsChar Js.isDigit part.

(** The [for ... of] loop with its [break]; [countryParts] is the array
    being pushed to. *)
Fixpoint countryLoop (parts countryParts : list string) : list string :=
  match parts with
  | [] => countryParts
  | part :: rest =>
      if isStopPart part then countryParts
      else countryLoop rest (countryParts ++ [part])
  end.

Definition extractCountryFromTermination (text : string) : string :=
  let parts := Js.split " "%char text in
  let countryParts := countryLoop parts [] in
  if 0 <? length countryParts then Js.join " " countryParts else text.

(** ** The messaging sink and the per-call environment *)

(** The body of a resolved [sendMessage] response, as far as the program
    reads it: [response.data.result.message_id]. *)
Inductive SendMessageReply :=
| ReplyNoResult                           (* [data.result] is not an object *)
| ReplyResult (message_id : option Z).    (* [None]: the property is absent *)

(** The value [sendInstantNotification] resolves to. *)
Inductive MessageIdValue :=
| IdNull
| IdUndefined
| IdNum (n : Z).

(** JavaScript truthiness of that value: [if (notificationMessageId)]. *)
Definition truthy (v : MessageIdValue) : bool :=
  match v with
  | IdNum n => negb (n =? 0)%Z
  | _ => false
  end.

Definition showId (v : MessageIdValue) : string :=
  match v with
  | IdNull => "null"
  | IdUndefined => "undefined"
  | IdNum n => pretty n
  end.

(** How the collaborators answer the calls of one notification pipeline. *)
Record Env := {
  timestamp : string;                                   (* [Date.now()], printed *)
  dirname : string;                                     (* [__dirname] *)
  sendMessageReply : string -> Outcome SendMessageReply;
  audioDownload : string -> string -> Outcome string;   (* url, Cookie header *)
  ffmpegRun : string -> string -> Outcome unit;         (* input, output *)
  sendAudioReply : string -> string -> Outcome unit;    (* caption, file *)
  deleteMessageReply : Z -> Outcome unit
}.

Record CallData := {
  country : string;
  number : string;
  cliNumber : string;
  audioUrl : string
}.

Global Instance CallData_eq_dec : EqDecision CallData.
Proof. solve_decision. Defined.

Section Pipeline.
Variable cfg : Config.
Variable env : Env.

Definition deleteTelegramMessage (messageId : Z) : M bool :=
  tryCatch
    (emit (DeleteMessage messageId) ;;
     await (deleteMessageReply env messageId) ;;
     emit (LogInfo ("Message " +:+ pretty messageId +:+ " deleted successfully.")) ;;
     ret true)
    (fun e =>
     emit (LogError ("Failed to delete message " +:+ pretty messageId +:+ ": " +:+ errorText e)) ;;
     ret false).

(** The source builds the form, with [fs.createReadStream(filePath)],
    before its [try]; the stream constructor is taken to accept the path (it
    refuses a path with a NUL code unit).  What is embedded is the [try]
    block and its [catch]. *)
Definition sendAudioToTelegramGroup (caption filePath : string) : M bool :=
  tryCatch
    (emit (SendAudio caption filePath) ;;
     await (sendAudioReply env caption filePath) ;;
     emit (LogInfo "Audio file sent to Telegram successfully.") ;;
     ret true)
    (fun e =>
     emit (LogError ("Failed to send audio file: " +:+ errorText e)) ;;
     ret false).

(** [response.data.result.message_id]: a [TypeError] when [result] is
    missing, [undefined] when only [message_id] is. *)
Definition readMessageId (r : SendMessageReply) : M MessageIdValue :=
  match r with
  | ReplyNoResult =>
      throw (newError "Cannot read properties of undefined (reading 'message_id')")
  | ReplyResult None => ret IdUndefined
  | ReplyResult (Some n) => ret (IdNum n)
  end.

(** The text of the instant notification. *)
Definition alertText (callData : CallData) : string :=
  getCountryFlag cfg (country callData) +:+ " Country: " +:+ country callData +:+ nl +:+
  glyphPhone cfg +:+ " Number: " +:+ maskNumber (number callData) +:+ nl +:+
  glyphBolt cfg +:+ " New call received!" +:+ nl +:+
  glyphHourglass cfg +:+ " please waiting...............".

Definition sendInstantNotification (callData : CallData) : M MessageIdValue :=
  let message := alertText callData in
  tryCatch
    (emit (SendMessage message) ;;
     let* response := await (sendMessageReply env message) in
     let* messageId := readMessageId response in
     emit (LogInfo ("Instant notification sent for " +:+ cliNumber callData +:+
                    " (Message ID: " +:+ showId messageId +:+ ")")) ;;
     ret messageId)
    (fun e =>
     emit (LogError ("Failed to send instant notification: " +:+ errorText e)) ;;
     ret IdNull).

End Pipeline.

(** ** The delayed worker: download, convert, send, clean up *)

(** The worker's promise always resolves.  The value recorded here tells
    which of its two exits was taken: the end of the [try] block, after the
    temporary files were deleted ([CLEANED]), or the [catch] block
    ([FAILED]). *)
Inductive Terminal := CLEANED | FAILED.

Global Instance Terminal_eq_dec : EqDecision Terminal.
Proof. solve_decision. Defined.

(** [path.basename]: what follows the last separator. *)
Fixpoint basename (p : string) : string :=
  match p with
  | EmptyString => EmptyString
  | String c r =>
      if Js.existsChar (fun x => bool_decide (x = "/"%char)) r then basename r
      else if decide (c = "/"%char) then r else p
  end.

(** [path.join(__dirname, fileName)], for a file name without separators. *)
Definition pathJoin (dir file : string) : string := dir +:+ "/" +:+ file.

Definition wavFileName (env : Env) (callData : CallData) : string :=
  "call_" +:+ timestamp env +:+ "_" +:+ cliNumber callData +:+ ".wav".

Definition wavPath (env : Env) (callData : CallData) : string :=
  pathJoin (dirname env) (wavFileName env callData).

Definition mp3Path (env : Env) (callData : CallData) : string :=
  Js.replace (wavPath env callData) ".wav" ".mp3".

(** [cookies.map(c => `${c.name}=${c.value}`).join("; ")] *)
Definition cookieHeader (cookies : list (string * string)) : string :=
  Js.join "; " (map (fun c => fst c +:+ "=" +:+ snd c) cookies).

Section Worker.
Variable cfg : Config.
Variable env : Env.

(** The promise around the ffmpeg command: [end] logs and resolves (the
    output file then exists), [error] logs and rejects. *)
Definition convertToMp3 (filePath filePathMp3 : string) : M unit :=
  emit (Ffmpeg filePath filePathMp3) ;;
  match ffmpegRun env filePath filePathMp3 with
  | Resolved _ =>
      (fun w => (Ok tt, {| files := {[filePathMp3]} ∪ files w; trace := trace w |})) ;;
      emit (LogInfo ("Converted to MP3: " +:+ basename filePathMp3))
  | Rejected err =>
      emit (LogError ("FFmpeg conversion error: " +:+ message err)) ;;
      throw err
  end.

(** The caption of the audio message. *)
Definition audioCaption (callData : CallData) : string :=
  getCountryFlag cfg (country callData) +:+ " Country: " +:+ country callData +:+ nl +:+
  glyphPhone cfg +:+ " Number: " +:+ maskNumber (number callData) +:+ nl +:+
  glyphPlay cfg +:+ " Play audio for OTP" +:+ nl +:+
  glyphMaker cfg +:+ " Made by BD Tech Monirul".

Definition processCallWorker (callData : CallData) (cookies : list (string * string))
    (notificationMessageId : MessageIdValue) : M Terminal :=
  tryCatch
    (let fileName := wavFileName env callData in
     let filePath := wavPath env callData in
     let headers := cookieHeader cookies in
     emit (HttpGet (audioUrl callData) headers) ;;
     let* response := await (audioDownload env (audioUrl callData) headers) in
     writeFileSync filePath ;;
     emit (LogInfo ("Audio file downloaded (WAV): " +:+ fileName)) ;;
     let filePathMp3 := mp3Path env callData in
     convertToMp3 filePath filePathMp3 ;;
     let caption := audioCaption callData in
     sendAudioToTelegramGroup env caption filePathMp3 ;;
     match notificationMessageId with
     | IdNum n => if truthy notificationMessageId
                  then (deleteTelegramMessage env n ;; ret tt) else ret tt
     | _ => ret tt
     end ;;
     unlinkSync filePath ;;
     unlinkSync filePathMp3 ;;
     emit (LogInfo "Temporary files deleted.") ;;
     ret CLEANED)
    (fun e =>
     emit (LogError ("Error processing call for " +:+ cliNumber callData +:+ ": " +:+ message e)) ;;
     ret FAILED).

(** What [main] chains to one new call: the instant notification, then,
    only for a truthy message id, the twenty-second timer and the worker.
    A call whose notification yields no id goes no further ([FAILED]). *)
Definition notificationPipeline (callData : CallData) (cookies : list (string * string))
    : M Terminal :=
  tryCatch
    (let* notificationMessageId := sendInstantNotification cfg env callData in
     if truthy notificationMessageId then
       emit (LogInfo ("New call detected (" +:+ cliNumber callData +:+
                      "), scheduling audio after 20s...")) ;;
       emit (SetTimeout 20000%Z) ;;
       tryCatch
         (processCallWorker callData cookies notificationMessageId)
         (fun err =>
          emit (LogError ("Call processing failed for " +:+ cliNumber callData +:+ ": " +:+ message err)) ;;
          ret FAILED)
     else ret FAILED)
    (fun err =>
     emit (LogError ("Notification failed for " +:+ cliNumber callData +:+ ": " +:+ message err)) ;;
     ret FAILED).

End Worker.

(** ** Login *)

(** The attributes read from one [input] element. *)
Record InputAttrs := {
  attrType : option string;
  attrPlaceholder : option string;
  attrName : option string;
  attrId : option string
}.

(** [a && a.toLowerCase().includes("email")] *)
Definition mentionsEmail (a : option string) : bool :=
  match a with
  | Some v => negb (bool_decide (v = "")) && Js.includes (Js.toLowerCase v) "email"
  | None => false
  end.

(** The scan over [page.$$("input")]: the first email-like field and the
    first password field, by position. *)
Fixpoint scanInputs (inputs : list InputAttrs) (index : nat)
    (emailField passField : option nat) : option nat * option nat :=
  match inputs with
  | [] => (emailField, passField)
  | attrs :: rest =>
      let emailField' :=
        if negb (bool_decide (is_Some emailField)) &&
           (bool_decide (attrType attrs = Some "email")
            || mentionsEmail (attrPlaceholder attrs)
            || mentionsEmail (attrName attrs)
            || mentionsEmail (attrId attrs))
        then Some index else emailField in
      let passField' :=
        if negb (bool_decide (is_Some passField)) &&
           bool_decide (attrType attrs = Some "password")
        then Some index else passField in
      scanInputs rest (S index) emailField' passField'
  end.

(** What the browser launched for one attempt meets.  The awaited browser
    calls of the [try] block not listed here are taken to resolve; a
    rejection of one of them would fail the attempt like the failures that
    are listed. *)
Record LoginAttempt := {
  launch : Outcome unit;                 (* [puppeteer.launch] *)
  closeBrowser : Outcome unit;           (* [browser.close()] in the [catch] block *)
  openLoginPage : Outcome unit;          (* [newPage] and [goto] of the login page *)
  inputs : list InputAttrs;
  submitControl : bool;                  (* [button[type=submit], input[type=submit]] found *)
  signInButtons : nat;                   (* buttons containing the text Sign In *)
  currentUrl : string;                   (* [page.url()] after the click *)
  pageContent : string;
  openLiveCalls : Outcome unit;
  pageCookies : list (string * string)
}.

Record Session := {
  browser : nat;                         (* the attempt whose browser is kept *)
  cookies : list (string * string)
}.

Section Login.
Variable cfg : Config.
Variable attempts : nat -> LoginAttempt.

(** The [try] block after the browser was launched. *)
Definition loginBody (attempt : nat) : M Session :=
  let a := attempts attempt in
  emit (LogInfo "Opening login page...") ;;
  emit (PageGoto "https://www.orangecarrier.com/login") ;;
  await (openLoginPage a) ;;
  emit (LogInfo "Waiting 5 sec before scanning form...") ;;
  emit (SetTimeout 5000%Z) ;;
  match scanInputs (inputs a) 0 None None with
  | (Some emailField, Some passField) =>
      emit (LogInfo "Email & Password fields detected! Auto filling...") ;;
      emit (PageType emailField (USERNAME cfg)) ;;
      emit (PageType passField (PASSWORD cfg))
  | _ => throw (newError "Could not detect email or password field!")
  end ;;
  (if submitControl a || (0 <? signInButtons a)
   then emit (LogInfo "Clicking Sign In button...") ;; emit PageClick
   else throw (newError "Sign In button not found!")) ;;
  if Js.includes (currentUrl a) "orangecarrier.com" &&
     (Js.includes (pageContent a) "Dashboard" || Js.includes (pageContent a) "Account Code")
  then
    emit (LogInfo "Login successful! Dashboard detected.") ;;
    emit (PageGoto "https://www.orangecarrier.com/live/calls") ;;
    await (openLiveCalls a) ;;
    ret {| browser := attempt; cookies := pageCookies a |}
  else throw (newError "Login failed or dashboard not detected.").

(** The [while (attempt < maxRetries)] loop, by the number [left] of
    attempts still allowed: [attempt = maxRetries - left], so the loop test
    fails exactly at [left = 0].  [launched] is the [browser] variable at
    the time the [catch] block runs.  The [catch] block awaits
    [browser.close()] unguarded: when that rejects, the error leaves the
    function and the loop with it. *)
Fixpoint loginLoop (maxRetries left : nat) : M (option Session) :=
  match left with
  | 0 => ret None
  | S left' =>
      let attempt := maxRetries - left in
      let onCatch (launched : bool) (err : JsError) : M (option Session) :=
        let attempt' := S attempt in
        emit (LogError ("Login attempt " +:+ pretty attempt' +:+ " failed: " +:+ message err)) ;;
        (if launched
         then emit BrowserClose ;; await (closeBrowser (attempts attempt))
         else ret tt) ;;
        if maxRetries <=? attempt' then ret None
        else emit (LogInfo "Retrying login...") ;; loginLoop maxRetries left' in
      fun w =>
        match (emit BrowserLaunch ;; await (launch (attempts attempt))) w with
        | (Throw e, w1) => onCatch false e w1
        | (Ok _, w1) =>
            match loginBody attempt w1 with
            | (Ok session, w2) => (Ok (Some session), w2)
            | (Throw e, w2) => onCatch true e w2
            end
        end
  end.

Definition loginToDashboard (maxRetries : nat) : M (option Session) :=
  loginLoop maxRetries maxRetries.

End Login.

(** ** The monitoring loop *)

(** The rows selected by [#LiveCalls tr, #last-activity tbody.lastdata tr],
    in document order: the text of each [td] under the row and the
    [onclick] attribute of each [button] under it that has one. *)
Record Row := {
  tds : list string;
  buttonOnclicks : list string
}.

Definition isQuote (c : ascii) : bool :=
  bool_decide (c = "039"%char) || bool_decide (c = "034"%char).

(** The longest prefix without a quote character, and what follows it. *)
Fixpoint spanUntilQuote (s : string) : string * string :=
  match s with
  | EmptyString => (EmptyString, EmptyString)
  | String c r =>
      if isQuote c then (EmptyString, s)
      else let (body, rest) := spanUntilQuote r in (String c body, rest)
  end.

(** One quoted group of the pattern at the head of [s]: a quote, one or
    more characters that are not quotes, a quote.  The greedy group has a
    single way to match, since the character after it must be a quote. *)
Definition quotedGroup (s : string) : option (string * string) :=
  match s with
  | String q r =>
      if isQuote q then
        match spanUntilQuote r with
        | (EmptyString, _) => None
        | (body, String _ rest) => Some (body, rest)
        | (_, EmptyString) => None
        end
      else None
  | EmptyString => None
  end.

(** The whole pattern anchored at the head of [s]; the two captures. *)
Definition matchPlayHere (s : string) : option (string * string) :=
  if Js.startsWith "Play(" s then
    match quotedGroup (Js.drop 5 s) with
    | Some (did, String c afterComma) =>
        if decide (c = ","%char) then
          match quotedGroup (Js.trimStart afterComma) with
          | Some (uuid, rest) =>
              if Js.startsWith ")" rest then Some (did, uuid) else None
          | None => None
          end
        else None
    | _ => None
    end
  else None.

(** [onclickAttr.match(/Play\(['"]([^'"]+)['"],\s*['"]([^'"]+)['"]\)/)]:
    the leftmost match. *)
Fixpoint matchPlay (s : string) : option (string * string) :=
  match matchPlayHere s with
  | Some m => Some m
  | None =>
      match s with
      | EmptyString => None
      | String _ r => matchPlay r
      end
  end.

(** What the loop does that the claims speak about: recording a call id in
    [processedCalls], and starting the notification pipeline of a call (the
    synchronous call of [sendInstantNotification]). *)
Inductive LoopEvent :=
| DedupAdd (callId : string)
| PipelineStart (callId : string) (callData : CallData)
| LoopError (line : string)
| Pause (ms : Z).

Global Instance LoopEvent_eq_dec : EqDecision LoopEvent.
Proof. solve_decision. Defined.

Record LoopState := {
  processedCalls : gset string;
  events : list LoopEvent
}.

Definition audioUrlOf (did uuid : string) : string :=
  "https://www.orangecarrier.com/live/calls/sound?did=" +:+ did +:+ "&uuid=" +:+ uuid.

(** The callback of [.each], for one row. *)
Definition mainRow (st : LoopState) (row : Row) : LoopState :=
  let columns := tds row in
  if 2 <? length columns then
    let cliNumber := Js.trim (nth 2 columns "") in
    let playButton := List.filter (fun a => Js.includes a "Play") (buttonOnclicks row) in
    match playButton with
    | onclickAttr :: _ =>
        match matchPlay onclickAttr with
        | Some (did, uuid) =>
            let callId := cliNumber +:+ "_" +:+ uuid in
            if decide (callId ∈ processedCalls st) then st
            else
              let processedCalls' := processedCalls st ∪ {[callId]} in
              let callData := {|
                country := extractCountryFromTermination (Js.trim (nth 0 columns ""));
                number := Js.trim (nth 1 columns "");
                cliNumber := cliNumber;
                audioUrl := audioUrlOf did uuid |} in
              {| processedCalls := processedCalls';
                 events := events st ++ [DedupAdd callId; PipelineStart callId callData] |}
        | None => st
        end
    | [] => st
    end
  else st.

(** One iteration of [while (true)]: [page.content()] either yields the
    rows of the snapshot or throws; an error is logged and followed by the
    long pause. *)
Definition mainTick (st : LoopState) (snapshot : Outcome (list Row)) : LoopState :=
  let st' :=
    match snapshot with
    | Resolved rows => fold_left mainRow rows st
    | Rejected e =>
        {| processedCalls := processedCalls st;
           events := events st ++ [LoopError ("Unexpected error in monitoring loop: " +:+ message e);
                                   Pause 15000] |}
    end in
  {| processedCalls := processedCalls st'; events := events st' ++ [Pause 100] |}.

(** The loop over the snapshots met so far, from [new Set()]. *)
Definition mainLoop (snapshots : list (Outcome (list Row))) : LoopState :=
  fold_left mainTick snapshots {| processedCalls := ∅; events := [] |}.

(** The call ids for which a pipeline was started, in order. *)
Definition startedIds (evs : list LoopEvent) : list string :=
  omap (fun ev => match ev with PipelineStart k _ => Some k | _ => None end) evs.

(** The calls extracted and started from one snapshot when nothing was
    processed before. *)
Definition startedCalls (evs : list LoopEvent) : list (string * CallData) :=
  omap (fun ev => match ev with PipelineStart k d => Some (k, d) | _ => None end) evs.

(** ** Vocabulary for the statements *)

(** The parts before the first stopping part. *)
Fixpoint leadingParts (parts : list string) : list string :=
  match parts with
  | [] => []
  | part :: rest => if isStopPart part then [] else part :: leadingParts rest
  end.

(** Country extraction as the specification words it: the leading parts up
    to the first stopping part, joined by single spaces; the whole text
    exactly when no part stops. *)
Definition countryAsStated (text : string) : Prop :=
  let parts := Js.split " "%char text in
  extractCountryFromTermination text = Js.join " " (leadingParts parts) /\
  (extractCountryFromTermination text = text <->
   Forall (fun part => isStopPart part = false) parts).

(** The two captures of a row's action control, when the row has a button
    whose [onclick] mentions Play and the pattern matches it. *)
Definition playReference (row : Row) : option (string * string) :=
  match List.filter (fun a => Js.includes a "Play") (buttonOnclicks row) with
  | onclickAttr :: _ => matchPlay onclickAttr
  | [] => None
  end.

(** Calls that belong to the phases after the instant notification. *)
Definition laterPhaseCall (c : Call) : bool :=
  match c with
  | SetTimeout _ | HttpGet _ _ | WriteFile _ | Ffmpeg _ _
  | SendAudio _ _ | DeleteMessage _ | Unlink _ => true
  | _ => false
  end.

Definition isSendAudio (c : Call) : bool :=
  match c with SendAudio _ _ => true | _ => false end.

Definition isDeleteMessage (c : Call) : bool :=
  match c with DeleteMessage _ => true | _ => false end.

Definition isUnlink (c : Call) : bool :=
  match c with Unlink _ => true | _ => false end.


(** Whether the scan finds both fields. *)
Definition fieldsDetected (inputs : list InputAttrs) : bool :=
  match scanInputs inputs 0 None None with
  | (Some _, Some _) => true
  | _ => false
  end.

(** The invariant of the loop: pipelines were started for distinct call
    ids, each of them recorded in [processedCalls], and every start is
    directly preceded by the recording of its call id. *)
Definition loopInvariant (st : LoopState) : Prop :=
  NoDup (startedIds (events st)) /\
  (forall k, k ∈ startedIds (events st) -> k ∈ processedCalls st) /\
  (forall i k d, events st !! i = Some (PipelineStart k d) ->
     exists j, i = S j /\ events st !! j = Some (DedupAdd k)).

(** The log line that follows the [sendAudio] call. *)
Definition sendAudioLine (env : Env) (caption filePath : string) : Call :=
  match sendAudioReply env caption filePath with
  | Resolved _ => LogInfo "Audio file sent to Telegram successfully."
  | Rejected e => LogError ("Failed to send audio file: " +:+ errorText e)
  end.

(** The log line that follows the [deleteMessage] call. *)
Definition deleteMessageLine (env : Env) (n : Z) : Call :=
  match deleteMessageReply env n with
  | Resolved _ => LogInfo ("Message " +:+ pretty n +:+ " deleted successfully.")
  | Rejected e => LogError ("Failed to delete message " +:+ pretty n +:+ ": " +:+ errorText e)
  end.

(** The calls of the instant notification when the sink assigns id [n]. *)
Definition notifiedCalls (cfg : Config) (d : CallData) (n : Z) : list Call :=
  [ SendMessage (alertText cfg d);
    LogInfo ("Instant notification sent for " +:+ cliNumber d +:+
             " (Message ID: " +:+ pretty n +:+ ")");
    LogInfo ("New call detected (" +:+ cliNumber d +:+ "), scheduling audio after 20s...");
    SetTimeout 20000%Z ].

(** The calls of the worker up to the start of the conversion. *)
Definition fetchedCalls (env : Env) (d : CallData) (cookies : list (string * string))
    : list Call :=
  [ HttpGet (audioUrl d) (cookieHeader cookies);
    WriteFile (wavPath env d);
    LogInfo ("Audio file downloaded (WAV): " +:+ wavFileName env d);
    Ffmpeg (wavPath env d) (mp3Path env d) ].

(** The calls of the worker once the conversion succeeded, whatever the
    sink answers to the audio and to the deletion of alert [n]. *)
Definition deliveryCalls (cfg : Config) (env : Env) (d : CallData) (n : Z) : list Call :=
  [ LogInfo ("Converted to MP3: " +:+ basename (mp3Path env d));
    SendAudio (audioCaption cfg d) (mp3Path env d);
    sendAudioLine env (audioCaption cfg d) (mp3Path env d);
    DeleteMessage n;
    deleteMessageLine env n;
    Unlink (wavPath env d);
    Unlink (mp3Path env d);
    LogInfo "Temporary files deleted." ].

(** The calls of the worker when the conversion fails with [err]. *)
Definition conversionFailedCalls (d : CallData) (err : JsError) : list Call :=
  [ LogError ("FFmpeg conversion error: " +:+ message err);
    LogError ("Error processing call for " +:+ cliNumber d +:+ ": " +:+ message err) ].


(** ** Concrete inputs *)

(** The row of the end-to-end scenario. *)
Definition scenarioRow : Row :=
  {| tds := ["USA MOBILE 1"; "15551234567"; "CLI1"];
     buttonOnclicks := ["Play('did9','uuid9')"] |}.

Definition scenarioCall : CallData :=
  {| country := "USA";
     number := "15551234567";
     cliNumber := "CLI1";
     audioUrl := "https://www.orangecarrier.com/live/calls/sound?did=did9&uuid=uuid9" |}.

Definition scenarioConfig : Config :=
  {| USERNAME := "user@example.org";
     PASSWORD := "secret";
     COUNTRY_NAME_TO_CODE := {[ "USA" := "US" ]};
     COUNTRY_FLAGS := {[ "US" := "[US]" ]};
     glyphGlobe := "[globe]";
     glyphPhone := "[phone]";
     glyphBolt := "[bolt]";
     glyphHourglass := "[hourglass]";
     glyphPlay := "[play]";
     glyphMaker := "[maker]" |}.

Definition badRequest : JsError :=
  {| description := Some "Bad Request: file is too big";
     message := "Request failed with status code 400" |}.

(** A sink that accepts the alert (message id 42) and its deletion but
    rejects the audio; download and conversion succeed. *)
Definition envAudioRejected : Env :=
  {| timestamp := "1700000000000";
     dirname := "/app";
     sendMessageReply := fun _ => Resolved (ReplyResult (Some 42%Z));
     audioDownload := fun _ _ => Resolved "RIFF";
     ffmpegRun := fun _ _ => Resolved tt;
     sendAudioReply := fun _ _ => Rejected badRequest;
     deleteMessageReply := fun _ => Resolved tt |}.

(** The same collaborators, with an ffmpeg that fails. *)
Definition envConversionFails : Env :=
  {| timestamp := "1700000000000";
     dirname := "/app";
     sendMessageReply := fun _ => Resolved (ReplyResult (Some 42%Z));
     audioDownload := fun _ _ => Resolved "RIFF";
     ffmpegRun := fun _ _ => Rejected (newError "ffmpeg exited with code 1");
     sendAudioReply := fun _ _ => Resolved tt;
     deleteMessageReply := fun _ => Resolved tt |}.

(** A sink that rejects the alert itself. *)
Definition envAlertRejected : Env :=
  {| timestamp := "1700000000000";
     dirname := "/app";
     sendMessageReply := fun _ => Rejected badRequest;
     audioDownload := fun _ _ => Resolved "RIFF";
     ffmpegRun := fun _ _ => Resolved tt;
     sendAudioReply := fun _ _ => Resolved tt;
     deleteMessageReply := fun _ => Resolved tt |}.

Definition scenarioCookies : list (string * string) := [("session", "abc")].

(** The specification's wording of a failed audio send: the pipeline ends
    in [FAILED], and neither the alert nor a temporary file is deleted. *)
Definition audioFailureAsStated (cfg : Config) (env : Env) (d : CallData)
    (cookies : list (string * string)) (w : World) : Prop :=
  (exists e, sendAudioReply env (audioCaption cfg d) (mp3Path env d) = Rejected e) ->
  fst (notificationPipeline cfg env d cookies w) = Ok FAILED /\
  Forall (fun c => isDeleteMessage c = false /\ isUnlink c = false)
         (trace (snd (notificationPipeline cfg env d cookies w))).

(** A login page that loads but has no input element at all. *)
Definition blankLoginPage : LoginAttempt :=
  {| launch := Resolved tt;
     closeBrowser := Resolved tt;
     openLoginPage := Resolved tt;
     inputs := [];
     submitControl := false;
     signInButtons := 0;
     currentUrl := "https://www.orangecarrier.com/login";
     pageContent := "<html></html>";
     openLiveCalls := Resolved tt;
     pageCookies := [] |}.

(** A login page with the two fields and a submit control, leading to the
    dashboard. *)
Definition goodLoginPage : LoginAttempt :=
  {| launch := Resolved tt;
     closeBrowser := Resolved tt;
     openLoginPage := Resolved tt;
     inputs :=
       [ {| attrType := Some "hidden"; attrPlaceholder := None;
            attrName := Some "_token"; attrId := None |};
         {| attrType := Some "text"; attrPlaceholder := Some "Your Email";
            attrName := Some "login"; attrId := None |};
         {| attrType := Some "password"; attrPlaceholder := None;
            attrName := Some "password"; attrId := None |} ];
     submitControl := true;
     signInButtons := 0;
     currentUrl := "https://www.orangecarrier.com/dashboard";
     pageContent := "<h1>Dashboard</h1>";
     openLiveCalls := Resolved tt;
     pageCookies := [("session", "abc")] |}.

(** ** Vocabulary for the further properties *)

Definition isSendMessage (c : Call) : bool :=
  match c with SendMessage _ => true | _ => false end.

Definition isHttpGet (c : Call) : bool :=
  match c with HttpGet _ _ => true | _ => false end.

Definition isFfmpeg (c : Call) : bool :=
  match c with Ffmpeg _ _ => true | _ => false end.

Definition isWriteFile (c : Call) : bool :=
  match c with WriteFile _ => true | _ => false end.

Definition isResolved {A} (o : Outcome A) : bool :=
  match o with Resolved _ => true | Rejected _ => false end.

(** The later-phase calls of a pipeline that runs to its end for alert
    [n], in the order of the source. *)
Definition fullPhases (cfg : Config) (env : Env) (d : CallData)
    (cookies : list (string * string)) (n : Z) : list Call :=
  [ SetTimeout 20000%Z;
    HttpGet (audioUrl d) (cookieHeader cookies);
    WriteFile (wavPath env d);
    Ffmpeg (wavPath env d) (mp3Path env d);
    SendAudio (audioCaption cfg d) (mp3Path env d);
    DeleteMessage n;
    Unlink (wavPath env d);
    Unlink (mp3Path env d) ].

(** The same collaborators as above, with a download that fails. *)
Definition envDownloadFails : Env :=
  {| timestamp := "1700000000000";
     dirname := "/app";
     sendMessageReply := fun _ => Resolved (ReplyResult (Some 42%Z));
     audioDownload := fun _ _ => Rejected (newError "Request failed with status code 404");
     ffmpegRun := fun _ _ => Resolved tt;
     sendAudioReply := fun _ _ => Resolved tt;
     deleteMessageReply := fun _ => Resolved tt |}.

(** What a run of the worker from files [fs0] amounts to, by the replies
    to download and conversion: its exit [t], the files [fs] it leaves and
    the calls [new] it issues. *)
Definition workerResult (cfg : Config) (env : Env) (d : CallData)
    (cookies : list (string * string)) (id : MessageIdValue)
    (fs0 : gset string) (t : Terminal) (fs : gset string) (new : list Call) : Prop :=
  match audioDownload env (audioUrl d) (cookieHeader cookies),
        ffmpegRun env (wavPath env d) (mp3Path env d) with
  | Rejected e, _ =>
      t = FAILED /\ fs = fs0 /\
      new = [ HttpGet (audioUrl d) (cookieHeader cookies);
              LogError ("Error processing call for " +:+ cliNumber d +:+ ": " +:+ message e) ]
  | Resolved _, Rejected err =>
      t = FAILED /\ fs = {[wavPath env d]} ∪ fs0 /\
      new = fetchedCalls env d cookies ++ conversionFailedCalls d err
  | Resolved _, Resolved _ =>
      t = CLEANED /\
      fs = ({[mp3Path env d]} ∪ ({[wavPath env d]} ∪ fs0))
             ∖ {[wavPath env d]} ∖ {[mp3Path env d]} /\
      new = fetchedCalls env d cookies ++
            [ LogInfo ("Converted to MP3: " +:+ basename (mp3Path env d));
              SendAudio (audioCaption cfg d) (mp3Path env d);
              sendAudioLine env (audioCaption cfg d) (mp3Path env d) ] ++
            match id with
            | IdNum n => if truthy id then [DeleteMessage n; deleteMessageLine env n] else []
            | _ => []
            end ++
            [ Unlink (wavPath env d); Unlink (mp3Path env d);
              LogInfo "Temporary files deleted." ]
  end.

(** The test the scan applies to an input for the email field, and the one
    for the password field. *)
Definition emailLike (attrs : InputAttrs) : bool :=
  bool_decide (attrType attrs = Some "email")
  || mentionsEmail (attrPlaceholder attrs)
  || mentionsEmail (attrName attrs)
  || mentionsEmail (attrId attrs).

Definition passwordLike (attrs : InputAttrs) : bool :=
  bool_decide (attrType attrs = Some "password").

(** [found] is the position of the first element of [l] that satisfies
    [p], or nothing when no element does. *)
Definition firstAt {A} (p : A -> bool) (l : list A) (found : option nat) : Prop :=
  match found with
  | Some i =>
      (exists a, l !! i = Some a /\ p a = true) /\
      (forall j a, j < i -> l !! j = Some a -> p a = false)
  | None => Forall (fun a => p a = false) l
  end.

Fixpoint firstIndex {A} (p : A -> bool) (l : list A) : option nat :=
  match l with
  | [] => None
  | a :: rest => if p a then Some 0 else S <$> firstIndex p rest
  end.

(** Whether the page of an attempt gets through the [try] block: it
    opens, shows both fields and a submit or Sign In control, ends on the
    right host with a dashboard marker, and the live-calls view opens. *)
Definition pagePasses (a : LoginAttempt) : bool :=
  isResolved (openLoginPage a) &&
  fieldsDetected (inputs a) &&
  (submitControl a || (0 <? signInButtons a)) &&
  (Js.includes (currentUrl a) "orangecarrier.com" &&
   (Js.includes (pageContent a) "Dashboard" || Js.includes (pageContent a) "Account Code")) &&
  isResolved (openLiveCalls a).

Definition attemptPasses (a : LoginAttempt) : bool :=
  isResolved (launch a) && pagePasses a.

Definition sessionOf (attempts : nat -> LoginAttempt) (k : nat) : Session :=
  {| browser := k; cookies := pageCookies (attempts k) |}.

(** The call id the loop forms for a row, when the row gets that far. *)
Definition rowKey (row : Row) : option string :=
  if 2 <? length (tds row) then
    match playReference row with
    | Some (_, uuid) => Some (Js.trim (nth 2 (tds row) "") +:+ "_" +:+ uuid)
    | None => None
    end
  else None.

Definition hasUnderscore (s : string) : bool :=
  Js.existsChar (fun c => bool_decide (c = "_"%char)) s.

(** Two rows of the same caller line with different call tokens. *)
Definition firstCallRow : Row :=
  {| tds := ["USA MOBILE 1"; "15551234567"; "CLI1"];
     buttonOnclicks := ["Play('did9','uuid-a')"] |}.

Definition secondCallRow : Row :=
  {| tds := ["USA MOBILE 1"; "15551234567"; "CLI1"];
     buttonOnclicks := ["Play('did9','uuid-b')"] |}.

(** The set of processed calls is exactly the set of started call ids. *)
Definition processedAreStarted (st : LoopState) : Prop :=
  processedCalls st = list_to_set (startedIds (events st)).

(** A login page without inputs, in a browser that cannot be closed. *)
Definition stuckBrowserPage : LoginAttempt :=
  {| launch := Resolved tt;
     closeBrowser := Rejected (newError "Protocol error: Target closed");
     openLoginPage := Resolved tt;
     inputs := [];
     submitControl := false;
     signInButtons := 0;
     currentUrl := "https://www.orangecarrier.com/login";
     pageContent := "<html></html>";
     openLiveCalls := Resolved tt;
     pageCookies := [] |}.


(** What a run of the login loop from attempt [first] amounts to, by its
    result [r] and the calls [new] it issued: how many browsers were
    launched and closed, and what the result tells about the attempts. *)
Definition loginSummary (attempts : nat -> LoginAttempt) (maxRetries first : nat)
    (r : Result (option Session)) (new : list Call) : Prop :=
  let launches := count_occ Call_eq_dec new BrowserLaunch in
  let closes := count_occ Call_eq_dec new BrowserClose in
  let launched n :=
    length (List.filter (fun i => isResolved (launch (attempts i))) (seq first n)) in
  match r with
  | Ok (Some s) =>
      first <= browser s < maxRetries /\
      s = sessionOf attempts (browser s) /\
      attemptPasses (attempts (browser s)) = true /\
      launches = S (browser s - first) /\
      closes = launched (browser s - first)
  | Ok None =>
      first + launches = maxRetries /\
      closes = launched launches
  | Throw e =>
      exists j, first <= j < maxRetries /\
        isResolved (launch (attempts j)) = true /\
        closeBrowser (attempts j) = Rejected e /\
        launches = S (j - first) /\
        closes = launched (S (j - first))
  end.

(** The environment [env] with other replies of the messaging sink to the
    audio and to the deletion. *)
Definition withSink (env : Env) (audioReply : string -> string -> Outcome unit)
    (deleteReply : Z -> Outcome unit) : Env :=
  {| timestamp := timestamp env;
     dirname := dirname env;
     sendMessageReply := sendMessageReply env;
     audioDownload := audioDownload env;
     ffmpegRun := ffmpegRun env;
     sendAudioReply := audioReply;
     deleteMessageReply := deleteReply |}.

(** A path the stream constructor accepts: no NUL code unit. *)
Definition pathAccepted (path : string) : bool :=
  negb (Js.existsChar (fun c => bool_decide (c = "000"%char)) path).

(** ** Quick checks of the embedding on concrete inputs *)

Example maskNumber_long : maskNumber "15551234567" = "155***4567".
Proof. reflexivity. Qed.

Example maskNumber_short : maskNumber " 1234567 " = "1234567".
Proof. reflexivity. Qed.

Example country_usa : extractCountryFromTermination "USA MOBILE 1" = "USA".
Proof. reflexivity. Qed.

Example country_lower_stop : extractCountryFromTermination "UNITED STATES mobile 123" = "UNITED STATES".
Proof. reflexivity. Qed.

Example matchPlay_plain : matchPlay "Play('did9','uuid9')" = Some ("did9", "uuid9").
Proof. reflexivity. Qed.

Example matchPlay_spaced : matchPlay "return Play('a',   'b'); x" = Some ("a", "b").
Proof. reflexivity. Qed.

Example matchPlay_one_argument : matchPlay "Play('did9')" = None.
Proof. reflexivity. Qed.

Example scan_good_page : scanInputs (inputs goodLoginPage) 0 None None = (Some 1, Some 2).
Proof. reflexivity. Qed.

Example login_second_attempt :
  fst (loginToDashboard scenarioConfig
         (fun i => if decide (i = 0) then blankLoginPage else goodLoginPage) 2 emptyWorld)
  = Ok (Some {| browser := 1; cookies := [("session", "abc")] |}).
Proof. by vm_compute. Qed.

Example pipeline_all_good :
  let env := {| timestamp := timestamp envAudioRejected;
                dirname := dirname envAudioRejected;
                sendMessageReply := sendMessageReply envAudioRejected;
                audioDownload := audioDownload envAudioRejected;
                ffmpegRun := ffmpegRun envAudioRejected;
                sendAudioReply := fun _ _ => Resolved tt;
                deleteMessageReply := deleteMessageReply envAudioRejected |} in
  let run := notificationPipeline scenarioConfig env scenarioCall scenarioCookies emptyWorld in
  fst run = Ok CLEANED /\
  files (snd run) = ∅ /\
  List.filter laterPhaseCall (trace (snd run)) =
    [ SetTimeout 20000;
      HttpGet "https://www.orangecarrier.com/live/calls/sound?did=did9&uuid=uuid9" "session=abc";
      WriteFile "/app/call_1700000000000_CLI1.wav";
      Ffmpeg "/app/call_1700000000000_CLI1.wav" "/app/call_1700000000000_CLI1.mp3";
      SendAudio (audioCaption scenarioConfig scenarioCall) "/app/call_1700000000000_CLI1.mp3";
      DeleteMessage 42;
      Unlink "/app/call_1700000000000_CLI1.wav";
      Unlink "/app/call_1700000000000_CLI1.mp3" ].
Proof. by vm_compute. Qed.

Example alert_text_masks_number :
  alertText scenarioConfig scenarioCall =
    "[US] Country: USA" +:+ nl +:+ "[phone] Number: 155***4567" +:+ nl +:+
    "[bolt] New call received!" +:+ nl +:+ "[hourglass] please waiting...............".
Proof. reflexivity. Qed.

(** ** Facts about the string primitives *)

Section StringFacts.

Lemma append_cons c s t : String c s +:+ t = String c (s +:+ t).
Proof. reflexivity. Qed.

Lemma append_empty_l t : "" +:+ t = t.
Proof. reflexivity. Qed.

Lemma append_assoc s t u : (s +:+ t) +:+ u = s +:+ t +:+ u.
Proof. induction s as [|c s IH]; [done|]. by rewrite !append_cons, IH. Qed.

Lemma length_append s t : String.length (s +:+ t) = String.length s + String.length t.
Proof. induction s as [|c s IH]; [done|]. rewrite append_cons. simpl. by rewrite IH. Qed.

Lemma length_drop n s : String.length (Js.drop n s) = String.length s - n.
Proof.
  revert s; induction n as [|n IH]; intros [|c s]; simpl; done.
Qed.

Lemma take_all n s : String.length s <= n -> Js.take n s = s.
Proof.
  revert s; induction n as [|n IH]; intros [|c s] Hn; simpl in *; try done; try lia.
  f_equal. apply IH. lia.
Qed.

Lemma drop_append_length p s : Js.drop (String.length p) (p +:+ s) = s.
Proof. induction p as [|c p IH]; [by destruct s|]. rewrite append_cons. exact IH. Qed.

(** Within range, [substring] is a [take] of a [drop]. *)
Lemma substringFrom_drop s n : n <= String.length s -> Js.substringFrom s n = Js.drop n s.
Proof.
  intros Hn. unfold Js.substringFrom, Js.substring.
  rewrite Nat.min_id, (Nat.min_l n) by done.
  rewrite Nat.min_l, Nat.max_r by done.
  apply take_all. rewrite length_drop. lia.
Qed.

Lemma substring_prefix s n : n <= String.length s -> Js.substring s 0 n = Js.take n s.
Proof.
  intros Hn. unfold Js.substring.
  rewrite (Nat.min_l n) by done. simpl. by rewrite Nat.sub_0_r.
Qed.

Lemma trimStart_idem s : Js.trimStart (Js.trimStart s) = Js.trimStart s.
Proof.
  induction s as [|c s IH]; [done|]. simpl.
  destruct (Js.isWhiteSpace c) eqn:Hc; [done|]. simpl. by rewrite Hc.
Qed.

Lemma trimEnd_idem s : Js.trimEnd (Js.trimEnd s) = Js.trimEnd s.
Proof.
  induction s as [|c s IH]; [done|]. simpl.
  destruct (Js.trimEnd s) as [|d r] eqn:Hs.
  - destruct (Js.isWhiteSpace c) eqn:Hc; [done|]. simpl. by rewrite Hc.
  - change (Js.trimEnd (String c (String d r)))
      with (match Js.trimEnd (String d r) with
            | EmptyString => if Js.isWhiteSpace c then EmptyString else String c EmptyString
            | r' => String c r'
            end).
    by rewrite IH.
Qed.

Lemma length_trimStart s : String.length (Js.trimStart s) <= String.length s.
Proof.
  induction s as [|d r IH]; simpl; [done|].
  destruct (Js.isWhiteSpace d); simpl; lia.
Qed.

Lemma trimStart_fixed_head c r :
  Js.trimStart (String c r) = String c r -> Js.isWhiteSpace c = false.
Proof.
  simpl. destruct (Js.isWhiteSpace c); [|done].
  intros Heq. pose proof (length_trimStart r) as Hle.
  rewrite Heq in Hle. simpl in Hle. lia.
Qed.

(** A string that does not start with white space keeps its head under
    [trimEnd]. *)
Lemma trimStart_trimEnd t : Js.trimStart t = t -> Js.trimStart (Js.trimEnd t) = Js.trimEnd t.
Proof.
  destruct t as [|c r]; [done|]. intros Hc. apply trimStart_fixed_head in Hc. simpl.
  destruct (Js.trimEnd r); rewrite ?Hc; simpl; by rewrite Hc.
Qed.

Lemma trim_idem s : Js.trim (Js.trim s) = Js.trim s.
Proof.
  unfold Js.trim.
  rewrite (trimStart_trimEnd (Js.trimStart s)) by apply trimStart_idem.
  apply trimEnd_idem.
Qed.

Lemma trimStart_trim s : Js.trimStart (Js.trim s) = Js.trim s.
Proof. unfold Js.trim. apply trimStart_trimEnd, trimStart_idem. Qed.

Lemma trimEnd_trim s : Js.trimEnd (Js.trim s) = Js.trim s.
Proof. unfold Js.trim. apply trimEnd_idem. Qed.

Lemma trimEnd_tail c r : Js.trimEnd (String c r) = String c r -> r <> "" -> Js.trimEnd r = r.
Proof.
  simpl. destruct (Js.trimEnd r) as [|d r'] eqn:Hr.
  - destruct (Js.isWhiteSpace c); intros Heq Hne; [done|]. by injection Heq as <-.
  - intros Heq _. by injection Heq.
Qed.

Lemma trimEnd_drop n t :
  Js.trimEnd t = t -> n < String.length t -> Js.trimEnd (Js.drop n t) = Js.drop n t.
Proof.
  revert t; induction n as [|n IH]; intros [|c r] Ht Hn; simpl in Hn |- *; try done; try lia.
  apply IH; [|lia]. apply (trimEnd_tail c); [done|]. intros ->. simpl in Hn. lia.
Qed.

Lemma trimEnd_append p u : Js.trimEnd u = u -> u <> "" -> Js.trimEnd (p +:+ u) = p +:+ u.
Proof.
  intros Hu Hne. induction p as [|c p IH]; [done|].
  rewrite append_cons. simpl. rewrite IH.
  destruct (p +:+ u) eqn:Hpu; [|done].
  destruct p; [by rewrite append_empty_l in Hpu | by rewrite append_cons in Hpu].
Qed.

(** Digits are not white space, so a string of digits is its own trim. *)
Lemma isDigit_not_space c : Js.isDigit c = true -> Js.isWhiteSpace c = false.
Proof. destruct c as [[] [] [] [] [] [] [] []]; vm_compute; congruence. Qed.

Lemma no_space_trimStart s :
  Js.forallChar (fun c => negb (Js.isWhiteSpace c)) s = true -> Js.trimStart s = s.
Proof.
  destruct s as [|c s]; [done|]. simpl. intros [Hc _]%andb_prop.
  by destruct (Js.isWhiteSpace c).
Qed.

Lemma no_space_trimEnd s :
  Js.forallChar (fun c => negb (Js.isWhiteSpace c)) s = true -> Js.trimEnd s = s.
Proof.
  induction s as [|c s IH]; [done|]. simpl. intros [Hc Hs]%andb_prop.
  rewrite IH by done. destruct s; [|done]. by destruct (Js.isWhiteSpace c).
Qed.

Lemma forallChar_impl (p q : ascii -> bool) s :
  (forall c, p c = true -> q c = true) ->
  Js.forallChar p s = true -> Js.forallChar q s = true.
Proof.
  intros Hpq. induction s as [|c s IH]; [done|]. simpl.
  intros [Hc Hs]%andb_prop. by rewrite (Hpq c Hc), IH.
Qed.

Lemma digits_trim s : Js.forallChar Js.isDigit s = true -> Js.trim s = s.
Proof.
  intros Hd.
  assert (Js.forallChar (fun c => negb (Js.isWhiteSpace c)) s = true) as Hs.
  { revert Hd. apply forallChar_impl. intros c Hc. by rewrite isDigit_not_space. }
  unfold Js.trim. rewrite no_space_trimStart by done. by apply no_space_trimEnd.
Qed.

End StringFacts.

(** ** Masking *)

Section Masking.

(** On a string that is its own trim, [maskNumber] is the plain case split
    on the length. *)
Lemma maskNumber_trimmed t :
  Js.trim t = t ->
  maskNumber t =
    if 7 <? String.length t
    then Js.take 3 t +:+ "***" +:+ Js.drop (String.length t - 4) t
    else t.
Proof.
  intros Ht. unfold maskNumber. rewrite Ht.
  destruct (7 <? String.length t) eqn:Hlen; [|done].
  apply Nat.ltb_lt in Hlen.
  rewrite substring_prefix, substringFrom_drop by lia. done.
Qed.

Lemma length_take n s : n <= String.length s -> String.length (Js.take n s) = n.
Proof.
  revert s; induction n as [|n IH]; intros [|c s] Hn; simpl in *; try done; try lia.
  rewrite IH; [done|lia].
Qed.

(** The masked form of a long trimmed string: ten characters, no white
    space at either end. *)
Lemma masked_shape t :
  Js.trim t = t -> 7 < String.length t ->
  let r := Js.take 3 t +:+ "***" +:+ Js.drop (String.length t - 4) t in
  Js.trim r = r /\ String.length r = 10 /\
  Js.take 3 r = Js.take 3 t /\ Js.drop 6 r = Js.drop (String.length t - 4) t.
Proof.
  intros Ht Hlen.
  assert (Js.trimStart t = t) as Hstart by (rewrite <- Ht; apply trimStart_trim).
  assert (Js.trimEnd t = t) as Hend by (rewrite <- Ht; apply trimEnd_trim).
  set (last4 := Js.drop (String.length t - 4) t).
  assert (String.length last4 = 4) as Hl4 by (unfold last4; rewrite length_drop; lia).
  assert (Js.trimEnd last4 = last4) as He4 by (apply trimEnd_drop; [done|lia]).
  destruct t as [|a [|b [|c t']]]; simpl in Hlen; try lia.
  intros r.
  assert (r = String a (String b (String c "***")) +:+ last4) as -> by reflexivity.
  split; [|split; [|split]].
  - unfold Js.trim.
    assert (Js.isWhiteSpace a = false) as Ha by (by apply trimStart_fixed_head in Hstart).
    assert (Js.trimStart (String a (String b (String c "***")) +:+ last4)
            = String a (String b (String c "***")) +:+ last4) as ->.
    { rewrite append_cons. simpl. by rewrite Ha. }
    apply trimEnd_append; [done|]. intros Hnil. by rewrite Hnil in Hl4.
  - rewrite length_append, Hl4. done.
  - done.
  - exact (drop_append_length (String a (String b (String c "***"))) last4).
Qed.

End Masking.

(** C8. For a string of digits longer than seven characters the masked form
    is its first three characters, three stars and its last four characters;
    a string of digits of at most seven characters is returned unchanged. *)
Theorem maskNumber_numeric (s : string) :
  Js.forallChar Js.isDigit s = true ->
  (7 < String.length s ->
     maskNumber s = Js.take 3 s +:+ "***" +:+ Js.drop (String.length s - 4) s /\
     String.length (Js.take 3 s) = 3 /\
     String.length (Js.drop (String.length s - 4) s) = 4) /\
  (String.length s <= 7 -> maskNumber s = s).
Proof.
  intros Hd. pose proof (maskNumber_trimmed s (digits_trim s Hd)) as Hm.
  split.
  - intros Hlen. rewrite Hm.
    destruct (Nat.ltb_spec 7 (String.length s)); [|lia].
    split; [done|]. split; [apply length_take; lia | rewrite length_drop; lia].
  - intros Hlen. rewrite Hm.
    destruct (Nat.ltb_spec 7 (String.length s)); [lia|done].
Qed.

Lemma maskNumber_numeric_witness :
  maskNumber "15551234567" = "155***4567" /\ maskNumber "1234567" = "1234567".
Proof.
  split.
  - destruct (maskNumber_numeric "15551234567" eq_refl) as [Hlong _].
    destruct Hlong as [Heq _]; [simpl; lia|]. exact Heq.
  - destruct (maskNumber_numeric "1234567" eq_refl) as [_ Hshort].
    apply Hshort. simpl. lia.
Defined.

(** C9. Masking is idempotent on every string: masking a masked string
    changes nothing. *)
Theorem maskNumber_idempotent (s : string) : maskNumber (maskNumber s) = maskNumber s.
Proof.
  assert (maskNumber s = maskNumber (Js.trim s)) as ->.
  { unfold maskNumber. by rewrite trim_idem. }
  set (t := Js.trim s). assert (Js.trim t = t) as Ht by apply trim_idem.
  rewrite (maskNumber_trimmed t Ht).
  destruct (Nat.ltb_spec 7 (String.length t)) as [Hlen|Hlen].
  - destruct (masked_shape t Ht Hlen) as (Hr & Hlr & Htake & Hdrop).
    rewrite maskNumber_trimmed by done. rewrite Hlr. simpl (7 <? 10).
    cbv iota. change (10 - 4) with 6. by rewrite Htake, Hdrop.
  - rewrite maskNumber_trimmed by done.
    destruct (Nat.ltb_spec 7 (String.length t)); [lia|done].
Qed.

(** ** Country extraction *)

Section Country.

Lemma split_not_nil sep s : Js.split sep s <> [].
Proof.
  destruct s as [|c r]; simpl; [done|].
  destruct (ascii_dec c sep); [done|]. by destruct (Js.split sep r).
Qed.

(** Joining the parts of a split gives the text back. *)
Lemma join_split sep s : Js.join (String sep "") (Js.split sep s) = s.
Proof.
  induction s as [|c r IH]; [done|]. simpl.
  destruct (ascii_dec c sep) as [->|Hne].
  - pose proof (split_not_nil sep r) as Hnil.
    destruct (Js.split sep r) as [|h t] eqn:Hsp; [done|].
    change (Js.join (String sep "") ("" :: h :: t))
      with ("" +:+ String sep "" +:+ Js.join (String sep "") (h :: t)).
    by rewrite IH.
  - pose proof (split_not_nil sep r) as Hnil.
    destruct (Js.split sep r) as [|h t] eqn:Hsp; [done|].
    destruct t as [|h' t'].
    + simpl in IH |- *. by rewrite IH.
    + change (Js.join (String sep "") (String c h :: h' :: t'))
        with (String c h +:+ String sep "" +:+ Js.join (String sep "") (h' :: t')).
      rewrite append_cons. f_equal. exact IH.
Qed.

Lemma countryLoop_leading parts acc : countryLoop parts acc = acc ++ leadingParts parts.
Proof.
  revert acc; induction parts as [|part rest IH]; intros acc; simpl.
  - by rewrite app_nil_r.
  - destruct (isStopPart part); [by rewrite app_nil_r|].
    by rewrite IH, <- app_assoc.
Qed.

(** The leading parts are a prefix; what follows them, if anything, starts
    with a stopping part. *)
Lemma leadingParts_split parts :
  (leadingParts parts = parts /\ Forall (fun p => isStopPart p = false) parts) \/
  (exists stop rest, parts = leadingParts parts ++ stop :: rest /\ isStopPart stop = true).
Proof.
  induction parts as [|part rest IH]; simpl; [by left|].
  destruct (isStopPart part) eqn:Hstop.
  - right. by exists part, rest.
  - destruct IH as [[Heq Hall]|(stop & rest' & Heq & Hs)].
    + left. split; [by rewrite Heq | by constructor].
    + right. exists stop, rest'. split; [|done]. simpl. by rewrite <- Heq.
Qed.

Lemma join_cons_cons sep p q rest :
  Js.join sep (p :: q :: rest) = p +:+ sep +:+ Js.join sep (q :: rest).
Proof. reflexivity. Qed.

Lemma length_join_app sep l1 l2 :
  l1 <> [] -> l2 <> [] ->
  String.length (Js.join sep (l1 ++ l2)) =
    String.length (Js.join sep l1) + String.length sep + String.length (Js.join sep l2).
Proof.
  intros H1 H2. induction l1 as [|p [|q l1] IH]; [done| |].
  - destruct l2 as [|r l2]; [done|]. simpl app.
    rewrite join_cons_cons, !length_append. simpl. lia.
  - change ((p :: q :: l1) ++ l2) with (p :: q :: (l1 ++ l2)).
    rewrite !join_cons_cons, !length_append.
    change (q :: l1 ++ l2) with ((q :: l1) ++ l2). rewrite IH by done. lia.
Qed.

(** What the function returns, by the first part of the text. *)
Lemma extractCountry_cases text :
  extractCountryFromTermination text =
    if isStopPart (hd "" (Js.split " "%char text)) then text
    else Js.join " " (leadingParts (Js.split " "%char text)).
Proof.
  unfold extractCountryFromTermination. rewrite countryLoop_leading. simpl app.
  pose proof (split_not_nil " "%char text) as Hnil.
  destruct (Js.split " "%char text) as [|part rest]; [done|]. simpl.
  by destruct (isStopPart part).
Qed.

End Country.

(** C6 (as the code has it). The text is cut into parts at every single
    space.  When the first part is not a stopping part (MOBILE or FIXED in
    any case, or a part with a digit), the result is the parts before the
    first stopping part joined by single spaces; when the first part is
    itself a stopping part, the result is the whole text.  So the whole text
    comes back exactly when no part stops or the first one does.  The two
    examples of the specification hold. *)
Theorem extractCountry_leading_parts (text : string) :
  let parts := Js.split " "%char text in
  (isStopPart (hd "" parts) = false ->
     extractCountryFromTermination text = Js.join " " (leadingParts parts)) /\
  (isStopPart (hd "" parts) = true -> extractCountryFromTermination text = text) /\
  (extractCountryFromTermination text = text <->
     Forall (fun part => isStopPart part = false) parts \/ isStopPart (hd "" parts) = true) /\
  extractCountryFromTermination "UNITED STATES MOBILE 123" = "UNITED STATES" /\
  extractCountryFromTermination "FRANCE" = "FRANCE".
Proof.
  intros parts. pose proof (extractCountry_cases text) as Hc. fold parts in Hc.
  split; [by intros H; rewrite Hc, H|].
  split; [by intros H; rewrite Hc, H|].
  split; [|by split].
  pose proof (split_not_nil " "%char text) as Hnil. fold parts in Hnil.
  pose proof (join_split " "%char text) as Hjoin. fold parts in Hjoin.
  clearbody parts.
  destruct (isStopPart (hd "" parts)) eqn:Hhd; rewrite Hc.
  - split; [by right|done].
  - destruct (leadingParts_split parts) as [[Heq Hall]|(stop & rest & Heq & Hstop)].
    + split; [by left|]. intros _. by rewrite Heq.
    + split.
      * intros Hsame. exfalso.
        assert (leadingParts parts <> []) as Hlead.
        { destruct parts as [|p ps]; [done|]. simpl in Hhd |- *. by rewrite Hhd. }
        assert (String.length (Js.join " " (leadingParts parts ++ stop :: rest))
                = String.length text) as Hlen by (by rewrite <- Heq, Hjoin).
        rewrite length_join_app, Hsame in Hlen by done. simpl in Hlen. lia.
      * intros [Hall|Hfalse]; [|done]. exfalso.
        rewrite Heq in Hall. apply Forall_app in Hall as [_ Hall].
        apply Forall_cons in Hall as [Hs _]. congruence.
Qed.

(** C6, counterexample to the wording of the specification: in the text
    MOBILE 123 the first part already stops, yet the whole text is returned
    rather than the empty join of the parts before it. *)
Lemma extractCountry_first_part_stops : ~ countryAsStated "MOBILE 123".
Proof.
  intros [Hjoin _]. vm_compute in Hjoin. discriminate Hjoin.
Qed.

(** ** The monitoring loop: extraction and deduplication *)

Section Loop.

(** The row callback, by the row's action reference. *)
Lemma mainRow_unfold st row :
  mainRow st row =
    if 2 <? length (tds row) then
      match playReference row with
      | Some (did, uuid) =>
          let cli := Js.trim (nth 2 (tds row) "") in
          let callId := cli +:+ "_" +:+ uuid in
          if decide (callId ∈ processedCalls st) then st
          else
            {| processedCalls := processedCalls st ∪ {[callId]};
               events := events st ++
                 [DedupAdd callId;
                  PipelineStart callId
                    {| country := extractCountryFromTermination (Js.trim (nth 0 (tds row) ""));
                       number := Js.trim (nth 1 (tds row) "");
                       cliNumber := cli;
                       audioUrl := audioUrlOf did uuid |}] |}
      | None => st
      end
    else st.
Proof.
  unfold mainRow, playReference.
  destruct (2 <? length (tds row)); [|done].
  destruct (List.filter _ (buttonOnclicks row)) as [|a l]; [done|].
  destruct (matchPlay a) as [[did uuid]|]; done.
Qed.

Lemma startedIds_app evs evs' : startedIds (evs ++ evs') = startedIds evs ++ startedIds evs'.
Proof. unfold startedIds. apply omap_app. Qed.

(** Appending events that start no pipeline keeps the invariant. *)
Lemma loopInvariant_quiet st evs :
  startedIds evs = [] ->
  loopInvariant st ->
  loopInvariant {| processedCalls := processedCalls st; events := events st ++ evs |}.
Proof.
  intros Hq (Hnd & Hin & Hpre). unfold loopInvariant. simpl.
  rewrite startedIds_app, Hq, app_nil_r. split; [done|]. split; [done|].
  intros i k d Hi. apply lookup_app_Some in Hi as [Hi|[Hlen Hi]].
  - destruct (Hpre i k d Hi) as (j & -> & Hj). exists j. split; [done|].
    by apply lookup_app_l_Some.
  - exfalso. assert (k ∈ startedIds evs) as Hk.
    { unfold startedIds. apply list_elem_of_omap.
      exists (PipelineStart k d). split; [|done]. by eapply list_elem_of_lookup_2. }
    rewrite Hq in Hk. by apply not_elem_of_nil in Hk.
Qed.

Lemma loopInvariant_row st row : loopInvariant st -> loopInvariant (mainRow st row).
Proof.
  intros Hinv. rewrite mainRow_unfold.
  destruct (2 <? length (tds row)); [|done].
  destruct (playReference row) as [[did uuid]|]; [|done]. cbv zeta.
  destruct (decide (_ ∈ processedCalls st)) as [|Hnew]; [done|].
  destruct Hinv as (Hnd & Hin & Hpre). unfold loopInvariant. simpl.
  rewrite startedIds_app. simpl.
  set (k := Js.trim (nth 2 (tds row) "") +:+ "_" +:+ uuid) in *.
  split; [|split].
  - apply NoDup_app. split; [done|]. split; [|apply NoDup_singleton].
    intros x Hx ->%list_elem_of_singleton. by apply Hnew, Hin.
  - intros x [Hx| ->%list_elem_of_singleton]%elem_of_app; set_solver.
  - intros i x d Hi. apply lookup_app_Some in Hi as [Hi|[Hlen Hi]].
    + destruct (Hpre i x d Hi) as (j & -> & Hj). exists j. split; [done|].
      by apply lookup_app_l_Some.
    + destruct (i - length (events st)) as [|[|n]] eqn:Hoff; simpl in Hi; try done.
      injection Hi as <- <-. exists (length (events st)). split; [lia|].
      rewrite lookup_app_r by lia. by rewrite Nat.sub_diag.
Qed.

Lemma loopInvariant_rows rows st : loopInvariant st -> loopInvariant (fold_left mainRow rows st).
Proof.
  revert st; induction rows as [|row rows IH]; intros st Hinv; [done|].
  simpl. by apply IH, loopInvariant_row.
Qed.

Lemma loopInvariant_tick st snapshot : loopInvariant st -> loopInvariant (mainTick st snapshot).
Proof.
  intros Hinv. unfold mainTick. destruct snapshot as [rows|e].
  - by apply (loopInvariant_quiet (fold_left mainRow rows st) [Pause 100]), loopInvariant_rows.
  - apply (loopInvariant_quiet _ [Pause 100]); [done|].
    by apply (loopInvariant_quiet st [_; _]).
Qed.

Lemma loopInvariant_loop snapshots : loopInvariant (mainLoop snapshots).
Proof.
  unfold mainLoop.
  assert (loopInvariant {| processedCalls := ∅; events := [] |}) as Hinit.
  { split; [apply NoDup_nil_2|]. split; [by intros k Hk%not_elem_of_nil|].
    intros i k d Hi. simpl in Hi. by destruct i. }
  revert Hinit. generalize ({| processedCalls := (∅ : gset string); events := [] |}).
  induction snapshots as [|s snapshots IH]; intros st Hinv; [done|].
  simpl. by apply IH, loopInvariant_tick.
Qed.

End Loop.

(** C1. Over any sequence of page snapshots (readable or not), starting
    from the empty set of processed calls, the loop starts at most one
    notification pipeline per call id, and each start comes directly after
    the recording of that call id in the set, which still holds it at the
    end. *)
Theorem pipeline_started_at_most_once (snapshots : list (Outcome (list Row))) :
  let st := mainLoop snapshots in
  NoDup (startedIds (events st)) /\
  (forall i k d, events st !! i = Some (PipelineStart k d) ->
     exists j, i = S j /\ events st !! j = Some (DedupAdd k)) /\
  (forall k, k ∈ startedIds (events st) -> k ∈ processedCalls st).
Proof.
  intros st. destruct (loopInvariant_loop snapshots) as (Hnd & Hin & Hpre). done.
Qed.

(** C7. A row with at most two columns, or without an action control that
    matches the two-argument Play form, produces no event and leaves the
    state alone.  Every pipeline start a row adds carries the call id
    [cliNumber + '_' + uuid] and the audio locator built from [did] and
    [uuid], with the three columns trimmed.  On the scenario row the loop
    starts exactly one pipeline, for CLI1_uuid9, and a second identical
    snapshot starts none. *)
Theorem row_extraction (st : LoopState) (row : Row) :
  (length (tds row) <= 2 -> mainRow st row = st) /\
  (playReference row = None -> mainRow st row = st) /\
  (forall k d, PipelineStart k d ∈ events (mainRow st row) ->
     PipelineStart k d ∈ events st \/
     exists did uuid,
       playReference row = Some (did, uuid) /\
       2 < length (tds row) /\
       k = cliNumber d +:+ "_" +:+ uuid /\
       audioUrl d = audioUrlOf did uuid /\
       cliNumber d = Js.trim (nth 2 (tds row) "") /\
       number d = Js.trim (nth 1 (tds row) "") /\
       country d = extractCountryFromTermination (Js.trim (nth 0 (tds row) ""))) /\
  events (mainLoop [Resolved [scenarioRow]]) =
    [DedupAdd "CLI1_uuid9"; PipelineStart "CLI1_uuid9" scenarioCall; Pause 100] /\
  startedCalls (events (mainLoop [Resolved [scenarioRow]; Resolved [scenarioRow]])) =
    [("CLI1_uuid9", scenarioCall)].
Proof.
  split; [|split; [|split; [|split]]].
  - intros Hlen. rewrite mainRow_unfold.
    destruct (Nat.ltb_spec 2 (length (tds row))); [lia|done].
  - intros Hnone. rewrite mainRow_unfold, Hnone. by destruct (2 <? length (tds row)).
  - intros k d. rewrite mainRow_unfold.
    destruct (Nat.ltb_spec 2 (length (tds row))) as [Hlen|Hlen]; [|by left].
    destruct (playReference row) as [[did uuid]|]; [|by left]. cbv zeta.
    destruct (decide (_ ∈ processedCalls st)); [by left|]. simpl.
    intros [Hold|Hnew]%elem_of_app; [by left|]. right.
    apply elem_of_cons in Hnew as [Hnew|Hnew]; [done|].
    apply list_elem_of_singleton in Hnew. injection Hnew as -> ->.
    by exists did, uuid.
  - by vm_compute.
  - by vm_compute.
Qed.

(** ** The notification pipeline *)

Section PipelineFacts.
Context (cfg : Config) (env : Env).

Lemma replace_unfold s pat by_ :
  Js.replace s pat by_ =
    if Js.startsWith pat s then by_ +:+ Js.drop (String.length pat) s
    else match s with
         | EmptyString => EmptyString
         | String c r => String c (Js.replace r pat by_)
         end.
Proof. by destruct s. Qed.

Lemma includes_unfold s needle :
  Js.includes s needle =
    Js.startsWith needle s ||
    match s with EmptyString => false | String _ r => Js.includes r needle end.
Proof. by destruct s. Qed.

Lemma includes_append p s needle :
  Js.includes s needle = true -> Js.includes (p +:+ s) needle = true.
Proof.
  intros Hs. induction p as [|c p IH]; [done|].
  rewrite append_cons, includes_unfold, IH. apply orb_true_r.
Qed.

(** Replacing the extension of a path that has one changes the path. *)
Lemma replace_wav_changes s :
  Js.includes s ".wav" = true -> Js.replace s ".wav" ".mp3" <> s.
Proof.
  induction s as [|c r IH]; [done|].
  rewrite includes_unfold, replace_unfold.
  destruct (Js.startsWith ".wav" (String c r)) eqn:Hstart.
  - intros _. destruct r as [|b r]; cbn [Js.startsWith] in Hstart.
    + by destruct (ascii_dec "." c).
    + destruct (ascii_dec "." c) as [<-|]; [|done].
      destruct (ascii_dec "w" b) as [<-|]; [|done].
      rewrite !append_cons. discriminate.
  - simpl. intros Hr Heq. injection Heq as Heq. by apply IH.
Qed.

Lemma mp3Path_fresh d : mp3Path env d <> wavPath env d.
Proof.
  unfold mp3Path. apply replace_wav_changes.
  unfold wavPath, pathJoin, wavFileName.
  rewrite <- !append_assoc. by apply includes_append.
Qed.

(** The instant notification, by the reply of the sink. *)
Lemma sendInstantNotification_run d w :
  sendInstantNotification cfg env d w =
    match sendMessageReply env (alertText cfg d) with
    | Resolved (ReplyResult (Some n)) =>
        (Ok (IdNum n),
         {| files := files w;
            trace := trace w ++
              [SendMessage (alertText cfg d);
               LogInfo ("Instant notification sent for " +:+ cliNumber d +:+
                        " (Message ID: " +:+ pretty n +:+ ")")] |})
    | Resolved (ReplyResult None) =>
        (Ok IdUndefined,
         {| files := files w;
            trace := trace w ++
              [SendMessage (alertText cfg d);
               LogInfo ("Instant notification sent for " +:+ cliNumber d +:+
                        " (Message ID: undefined)")] |})
    | Resolved ReplyNoResult =>
        (Ok IdNull,
         {| files := files w;
            trace := trace w ++
              [SendMessage (alertText cfg d);
               LogError ("Failed to send instant notification: " +:+
                         "Cannot read properties of undefined (reading 'message_id')")] |})
    | Rejected e =>
        (Ok IdNull,
         {| files := files w;
            trace := trace w ++
              [SendMessage (alertText cfg d);
               LogError ("Failed to send instant notification: " +:+ errorText e)] |})
    end.
Proof.
  unfold sendInstantNotification, tryCatch, bind, emit, await. simpl.
  destruct (sendMessageReply env (alertText cfg d)) as [[|[n|]]|e];
    simpl; by rewrite <- app_assoc.
Qed.

End PipelineFacts.

(** C10. The instant notification never throws to its caller: whatever the
    sink answers, it resolves, after one [sendMessage] call and one log
    line.  It resolves to the message id the sink assigned when the reply
    carries one, and to [null], with the error logged, whenever the request
    is rejected or the reply cannot be read.  (A reply whose result has no
    message id is not a failure for the code; it then resolves to
    [undefined], which is as falsy as [null].) *)
Theorem sendInstantNotification_never_throws (cfg : Config) (env : Env)
    (d : CallData) (w : World) :
  exists v line,
    sendInstantNotification cfg env d w =
      (Ok v, {| files := files w;
                trace := trace w ++ [SendMessage (alertText cfg d); line] |}) /\
    match sendMessageReply env (alertText cfg d) with
    | Resolved (ReplyResult (Some n)) => v = IdNum n
    | Resolved (ReplyResult None) => v = IdUndefined
    | Resolved ReplyNoResult =>
        v = IdNull /\ exists text, line = LogError ("Failed to send instant notification: " +:+ text)
    | Rejected e =>
        v = IdNull /\ line = LogError ("Failed to send instant notification: " +:+ errorText e)
    end.
Proof.
  rewrite sendInstantNotification_run.
  destruct (sendMessageReply env (alertText cfg d)) as [[|[n|]]|e]; eauto 6.
Qed.

Section WorkerFacts.
Context (cfg : Config) (env : Env).

Lemma sendAudio_run caption filePath w :
  exists sent,
    sendAudioToTelegramGroup env caption filePath w =
      (Ok sent, {| files := files w;
                   trace := trace w ++ [SendAudio caption filePath;
                                        sendAudioLine env caption filePath] |}).
Proof.
  unfold sendAudioToTelegramGroup, sendAudioLine, tryCatch, bind, emit, await. simpl.
  destruct (sendAudioReply env caption filePath); simpl;
    eexists; by rewrite <- app_assoc.
Qed.

Lemma deleteMessage_run n w :
  exists deleted,
    deleteTelegramMessage env n w =
      (Ok deleted, {| files := files w;
                      trace := trace w ++ [DeleteMessage n; deleteMessageLine env n] |}).
Proof.
  unfold deleteTelegramMessage, deleteMessageLine, tryCatch, bind, emit, await. simpl.
  destruct (deleteMessageReply env n); simpl; eexists; by rewrite <- app_assoc.
Qed.

(** The worker when the download succeeds and ffmpeg fails: it ends in its
    [catch] block, the downloaded file still in place. *)
Lemma worker_conversion_fails d cookies id w data err :
  audioDownload env (audioUrl d) (cookieHeader cookies) = Resolved data ->
  ffmpegRun env (wavPath env d) (mp3Path env d) = Rejected err ->
  processCallWorker cfg env d cookies id w =
    (Ok FAILED,
     {| files := {[wavPath env d]} ∪ files w;
        trace := trace w ++ fetchedCalls env d cookies ++ conversionFailedCalls d err |}).
Proof.
  intros Hget Hff.
  unfold processCallWorker, convertToMp3, tryCatch, bind, emit, await, writeFileSync.
  rewrite Hget. simpl. rewrite Hff. simpl.
  by rewrite <- !app_assoc.
Qed.

(** The worker when download and conversion succeed, for a truthy alert
    id: whatever the sink answers afterwards, it deletes the alert and both
    files and ends at the end of its [try] block. *)
Lemma worker_after_conversion d cookies n w data :
  n ≠ 0%Z ->
  audioDownload env (audioUrl d) (cookieHeader cookies) = Resolved data ->
  ffmpegRun env (wavPath env d) (mp3Path env d) = Resolved tt ->
  processCallWorker cfg env d cookies (IdNum n) w =
    (Ok CLEANED,
     {| files := ({[mp3Path env d]} ∪ ({[wavPath env d]} ∪ files w))
                   ∖ {[wavPath env d]} ∖ {[mp3Path env d]};
        trace := trace w ++ fetchedCalls env d cookies ++ deliveryCalls cfg env d n |}).
Proof.
  intros Hn Hget Hff.
  unfold processCallWorker, convertToMp3, tryCatch, bind, emit, await, writeFileSync.
  rewrite Hget. simpl. rewrite Hff. simpl.
  edestruct sendAudio_run as [sent ->].
  assert ((n =? 0)%Z = false) as -> by lia. simpl.
  edestruct deleteMessage_run as [deleted ->]. simpl.
  unfold unlinkSync. simpl.
  rewrite decide_True by set_solver.
  rewrite decide_True by (pose proof (mp3Path_fresh env d); set_solver).
  simpl. by rewrite <- !app_assoc.
Qed.

End WorkerFacts.

Section PipelineRuns.
Context (cfg : Config) (env : Env).

(** Once the alert got a truthy id, the pipeline is the worker run after
    the notification calls. *)
Lemma pipeline_notified d cookies n w r w' :
  sendMessageReply env (alertText cfg d) = Resolved (ReplyResult (Some n)) ->
  n ≠ 0%Z ->
  processCallWorker cfg env d cookies (IdNum n)
    {| files := files w; trace := trace w ++ notifiedCalls cfg d n |} = (Ok r, w') ->
  notificationPipeline cfg env d cookies w = (Ok r, w').
Proof.
  intros Hreply Hn Hworker.
  unfold notificationPipeline, tryCatch, bind.
  rewrite sendInstantNotification_run, Hreply. simpl.
  assert ((n =? 0)%Z = false) as -> by lia. simpl.
  unfold emit. simpl. rewrite <- !app_assoc. simpl.
  unfold notifiedCalls in Hworker. by rewrite Hworker.
Qed.

(** Without a truthy id the pipeline is the notification alone. *)
Lemma pipeline_not_notified d cookies w :
  (forall n, sendMessageReply env (alertText cfg d) <> Resolved (ReplyResult (Some n))) ->
  exists line,
    notificationPipeline cfg env d cookies w =
      (Ok FAILED, {| files := files w;
                     trace := trace w ++ [SendMessage (alertText cfg d); line] |}) /\
    laterPhaseCall line = false.
Proof.
  intros Hreply.
  unfold notificationPipeline, tryCatch, bind.
  rewrite sendInstantNotification_run.
  destruct (sendMessageReply env (alertText cfg d)) as [[|[n|]]|e] eqn:Hr; simpl; eauto.
  by destruct (Hreply n).
Qed.

End PipelineRuns.

(** C4. When the instant alert yields no message id (the request is
    rejected, or the reply carries none), the pipeline ends in [FAILED]
    after the [sendMessage] call and one log line: no timer is armed, no
    download, conversion or audio send is issued, nothing is deleted and no
    file is touched. *)
Theorem alert_failure_ends_pipeline (cfg : Config) (env : Env) (d : CallData)
    (cookies : list (string * string)) (w : World) :
  (forall n, sendMessageReply env (alertText cfg d) <> Resolved (ReplyResult (Some n))) ->
  exists new,
    notificationPipeline cfg env d cookies w =
      (Ok FAILED, {| files := files w; trace := trace w ++ new |}) /\
    length new = 2 /\
    Forall (fun c => laterPhaseCall c = false) new.
Proof.
  intros Hreply.
  destruct (pipeline_not_notified cfg env d cookies w Hreply) as (line & Hrun & Hline).
  exists [SendMessage (alertText cfg d); line]. split; [done|]. split; [done|].
  by repeat constructor.
Qed.

Lemma alert_failure_ends_pipeline_witness :
  exists new,
    notificationPipeline scenarioConfig envAlertRejected scenarioCall scenarioCookies emptyWorld =
      (Ok FAILED, {| files := ∅; trace := [] ++ new |}) /\
    length new = 2 /\
    Forall (fun c => laterPhaseCall c = false) new.
Proof.
  apply (alert_failure_ends_pipeline scenarioConfig envAlertRejected scenarioCall
           scenarioCookies emptyWorld).
  intros n. simpl. discriminate.
Defined.

(** C3. When the alert was sent, the recording was downloaded and ffmpeg
    rejects, the pipeline ends in [FAILED]: after the conversion error only
    the two error lines are logged, so no audio is sent, no message is
    deleted and no file is unlinked; the downloaded WAV file is still
    there. *)
Theorem conversion_failure_is_terminal (cfg : Config) (env : Env) (d : CallData)
    (cookies : list (string * string)) (w : World) (n : Z) (data : string) (err : JsError) :
  sendMessageReply env (alertText cfg d) = Resolved (ReplyResult (Some n)) ->
  n ≠ 0%Z ->
  audioDownload env (audioUrl d) (cookieHeader cookies) = Resolved data ->
  ffmpegRun env (wavPath env d) (mp3Path env d) = Rejected err ->
  let new := notifiedCalls cfg d n ++ fetchedCalls env d cookies ++ conversionFailedCalls d err in
  notificationPipeline cfg env d cookies w =
    (Ok FAILED, {| files := {[wavPath env d]} ∪ files w; trace := trace w ++ new |}) /\
  Forall (fun c => isSendAudio c = false /\ isDeleteMessage c = false /\ isUnlink c = false) new /\
  wavPath env d ∈ ({[wavPath env d]} ∪ files w : gset string).
Proof.
  intros Hreply Hn Hget Hff new. split; [|split].
  - apply (pipeline_notified cfg env d cookies n w); [done..|].
    rewrite (worker_conversion_fails cfg env d cookies (IdNum n) _ data err) by done.
    simpl. by rewrite <- app_assoc.
  - by repeat constructor.
  - set_solver.
Qed.

Lemma conversion_failure_is_terminal_witness :
  fst (notificationPipeline scenarioConfig envConversionFails scenarioCall scenarioCookies
         emptyWorld) = Ok FAILED.
Proof.
  destruct (conversion_failure_is_terminal scenarioConfig envConversionFails scenarioCall
              scenarioCookies emptyWorld 42 "RIFF" (newError "ffmpeg exited with code 1"))
    as [Hrun _]; [reflexivity | lia | reflexivity | reflexivity |].
  by rewrite Hrun.
Defined.

(** C2 (as the code has it). When the alert was sent and download and
    conversion succeeded, a failed audio send is logged by the sender and
    goes no further: the worker carries on as after a successful send,
    deletes the alert by its message id, unlinks both temporary files and
    ends at the end of its [try] block ([CLEANED]), not in [FAILED]. *)
Theorem audio_send_failure_still_cleans (cfg : Config) (env : Env) (d : CallData)
    (cookies : list (string * string)) (w : World) (n : Z) (data : string) (e : JsError) :
  sendMessageReply env (alertText cfg d) = Resolved (ReplyResult (Some n)) ->
  n ≠ 0%Z ->
  audioDownload env (audioUrl d) (cookieHeader cookies) = Resolved data ->
  ffmpegRun env (wavPath env d) (mp3Path env d) = Resolved tt ->
  sendAudioReply env (audioCaption cfg d) (mp3Path env d) = Rejected e ->
  exists w',
    notificationPipeline cfg env d cookies w = (Ok CLEANED, w') /\
    trace w' = trace w ++ notifiedCalls cfg d n ++ fetchedCalls env d cookies ++
      [ LogInfo ("Converted to MP3: " +:+ basename (mp3Path env d));
        SendAudio (audioCaption cfg d) (mp3Path env d);
        LogError ("Failed to send audio file: " +:+ errorText e);
        DeleteMessage n;
        deleteMessageLine env n;
        Unlink (wavPath env d);
        Unlink (mp3Path env d);
        LogInfo "Temporary files deleted." ] /\
    (wavPath env d ∉ files w') /\
    (mp3Path env d ∉ files w').
Proof.
  intros Hreply Hn Hget Hff Hsend.
  eexists. split; [|split; [|split]].
  - apply (pipeline_notified cfg env d cookies n w); [done..|].
    by apply (worker_after_conversion cfg env d cookies n _ data).
  - simpl. unfold deliveryCalls, sendAudioLine. rewrite Hsend.
    by rewrite <- app_assoc.
  - simpl. intros [_ Hnot]%elem_of_difference%proj1%elem_of_difference.
    by apply Hnot, elem_of_singleton.
  - simpl. intros [_ Hnot]%elem_of_difference.
    by apply Hnot, elem_of_singleton.
Qed.

Lemma audio_send_failure_still_cleans_witness :
  fst (notificationPipeline scenarioConfig envAudioRejected scenarioCall scenarioCookies
         emptyWorld) = Ok CLEANED.
Proof.
  destruct (audio_send_failure_still_cleans scenarioConfig envAudioRejected scenarioCall
              scenarioCookies emptyWorld 42 "RIFF" badRequest)
    as (w' & Hrun & _); [reflexivity | lia | reflexivity | reflexivity | reflexivity |].
  by rewrite Hrun.
Defined.

(** C2, counterexample to the wording of the specification: with a sink
    that rejects the audio, the pipeline does not end in [FAILED]. *)
Lemma audio_send_failure_not_failed :
  ~ audioFailureAsStated scenarioConfig envAudioRejected scenarioCall scenarioCookies emptyWorld.
Proof.
  intros Hclaim. destruct Hclaim as [Hend _]; [by exists badRequest|].
  vm_compute in Hend. discriminate Hend.
Qed.

(** ** Login retries *)

Section LoginFacts.
Context (cfg : Config) (attempts : nat -> LoginAttempt).






End LoginFacts.




Example login_stuck_browser_run :
  loginToDashboard scenarioConfig (fun _ => stuckBrowserPage) 2 emptyWorld =
    (Throw (newError "Protocol error: Target closed"),
     {| files := ∅;
        trace := [ BrowserLaunch;
                   LogInfo "Opening login page...";
                   PageGoto "https://www.orangecarrier.com/login";
                   LogInfo "Waiting 5 sec before scanning form...";
                   SetTimeout 5000;
                   LogError "Login attempt 1 failed: Could not detect email or password field!";
                   BrowserClose ] |}).
Proof. by vm_compute. Qed.

(** ** Further properties: masking and country extraction *)

Section MoreStrings.

Lemma existsChar_append p s t :
  Js.existsChar p (s +:+ t) = Js.existsChar p s || Js.existsChar p t.
Proof.
  induction s as [|c s IH]; [done|].
  rewrite append_cons. simpl. by rewrite IH, orb_assoc.
Qed.

Lemma startsWith_append p s : Js.startsWith p (p +:+ s) = true.
Proof.
  induction p as [|c p IH]; [done|]. rewrite append_cons.
  cbn [Js.startsWith]. by destruct (ascii_dec c c).
Qed.

Lemma startsWith_refl p : Js.startsWith p p = true.
Proof.
  induction p as [|c p IH]; [done|].
  cbn [Js.startsWith]. by destruct (ascii_dec c c).
Qed.

Lemma join_app sep l1 l2 :
  l1 <> [] -> l2 <> [] ->
  Js.join sep (l1 ++ l2) = Js.join sep l1 +:+ sep +:+ Js.join sep l2.
Proof.
  intros H1 H2. induction l1 as [|p [|q l1] IH]; [done| |].
  - destruct l2 as [|r l2]; [done|]. reflexivity.
  - change ((p :: q :: l1) ++ l2) with (p :: q :: (l1 ++ l2)).
    rewrite !join_cons_cons.
    change (q :: l1 ++ l2) with ((q :: l1) ++ l2). rewrite IH by done.
    by rewrite !append_assoc.
Qed.

(** No part of a split contains the separator. *)
Lemma split_parts_no_sep sep s :
  Forall (fun p => Js.existsChar (fun c => bool_decide (c = sep)) p = false) (Js.split sep s).
Proof.
  induction s as [|c r IH]; [by repeat constructor|].
  cbn [Js.split]. destruct (ascii_dec c sep) as [->|Hne].
  - by constructor.
  - destruct (Js.split sep r) as [|h t]; [by repeat constructor; simpl; rewrite bool_decide_eq_false_2|].
    apply Forall_cons in IH as [Hh Ht]. constructor; [|done].
    simpl. by rewrite bool_decide_eq_false_2, Hh.
Qed.

Lemma split_no_sep sep p :
  Js.existsChar (fun c => bool_decide (c = sep)) p = false -> Js.split sep p = [p].
Proof.
  induction p as [|c p IH]; [done|]. simpl Js.existsChar.
  intros [Hc Hp]%orb_false_elim. apply bool_decide_eq_false in Hc.
  cbn [Js.split]. destruct (ascii_dec c sep); [done|]. by rewrite IH.
Qed.

Lemma split_append_sep sep p rest :
  Js.existsChar (fun c => bool_decide (c = sep)) p = false ->
  Js.split sep (p +:+ String sep rest) = p :: Js.split sep rest.
Proof.
  induction p as [|c p IH].
  - intros _. rewrite append_empty_l. cbn [Js.split]. by destruct (ascii_dec sep sep).
  - simpl Js.existsChar. intros [Hc Hp]%orb_false_elim. apply bool_decide_eq_false in Hc.
    rewrite append_cons. cbn [Js.split]. destruct (ascii_dec c sep); [done|].
    by rewrite IH.
Qed.

(** Splitting a join of separator-free parts gives the parts back. *)
Lemma split_join sep parts :
  parts <> [] ->
  Forall (fun p => Js.existsChar (fun c => bool_decide (c = sep)) p = false) parts ->
  Js.split sep (Js.join (String sep "") parts) = parts.
Proof.
  intros Hne Hall. induction parts as [|p [|q rest] IH]; [done| |].
  - apply Forall_cons in Hall as [Hp _]. by apply split_no_sep.
  - apply Forall_cons in Hall as [Hp Hrest].
    rewrite join_cons_cons.
    change (String sep "" +:+ Js.join (String sep "") (q :: rest))
      with (String sep (Js.join (String sep "") (q :: rest))).
    rewrite split_append_sep by done. by rewrite IH.
Qed.

Lemma leadingParts_no_stop parts :
  Forall (fun p => isStopPart p = false) (leadingParts parts).
Proof.
  induction parts as [|p rest IH]; simpl; [done|].
  destruct (isStopPart p) eqn:Hp; [done|]. by constructor.
Qed.

Lemma leadingParts_fixed parts :
  Forall (fun p => isStopPart p = false) parts -> leadingParts parts = parts.
Proof.
  induction 1 as [|p rest Hp _ IH]; simpl; [done|]. by rewrite Hp, IH.
Qed.

Lemma leadingParts_prefix parts : exists rest, parts = leadingParts parts ++ rest.
Proof.
  destruct (leadingParts_split parts) as [[Heq _]|(stop & rest & Heq & _)].
  - exists []. by rewrite app_nil_r.
  - by exists (stop :: rest).
Qed.

Lemma Forall_prefix {A} (P : A -> Prop) (l1 l2 : list A) :
  Forall P (l1 ++ l2) -> Forall P l1.
Proof. by intros [H _]%Forall_app. Qed.

End MoreStrings.

(** X1. Whatever the input, the masked form carries no white space at
    either end and is at most ten characters long: exactly ten when the
    trimmed input is longer than seven characters, the trimmed input itself
    otherwise. *)
Theorem maskNumber_shape (s : string) :
  Js.trim (maskNumber s) = maskNumber s /\
  String.length (maskNumber s) <= 10 /\
  (7 < String.length (Js.trim s) -> String.length (maskNumber s) = 10) /\
  (String.length (Js.trim s) <= 7 -> maskNumber s = Js.trim s).
Proof.
  assert (maskNumber s = maskNumber (Js.trim s)) as Hs
    by (unfold maskNumber; by rewrite trim_idem).
  pose proof (trim_idem s) as Ht. rewrite Hs, (maskNumber_trimmed _ Ht).
  destruct (Nat.ltb_spec 7 (String.length (Js.trim s))) as [Hlen|Hlen].
  - destruct (masked_shape _ Ht Hlen) as (Hr & Hlr & _).
    split; [done|]. split; [lia|]. split; [done|lia].
  - split; [done|]. split; [lia|]. split; [lia|done].
Qed.

(** X2. The extracted country is always a prefix of the input text, so it
    is never longer than the text. *)
Theorem extractCountry_is_prefix (text : string) :
  Js.startsWith (extractCountryFromTermination text) text = true /\
  String.length (extractCountryFromTermination text) <= String.length text.
Proof.
  assert (exists rest, text = extractCountryFromTermination text +:+ rest) as [rest Hrest].
  { rewrite extractCountry_cases.
    destruct (isStopPart (hd "" (Js.split " "%char text))) eqn:Hhd.
    - exists "". clear. induction text as [|c t IH]; [done|]. by rewrite append_cons, <- IH.
    - pose proof (join_split " "%char text) as Hjoin.
      destruct (leadingParts_split (Js.split " "%char text))
        as [[Heq _]|(stop & rest & Heq & _)].
      + exists "". rewrite Heq, Hjoin. clear.
        induction text as [|c t IH]; [done|]. by rewrite append_cons, <- IH.
      + assert (leadingParts (Js.split " "%char text) <> []) as Hlead.
        { destruct (Js.split " "%char text) as [|p ps]; [done|].
          simpl in Hhd |- *. by rewrite Hhd. }
        rewrite Heq in Hjoin at 1. rewrite join_app in Hjoin by done.
        eexists. symmetry. exact Hjoin. }
  split.
  - rewrite Hrest at 2. apply startsWith_append.
  - rewrite Hrest at 2. rewrite length_append. lia.
Qed.

(** X3. Country extraction is idempotent: extracting from an extracted
    country returns it unchanged. *)
Theorem extractCountry_idempotent (text : string) :
  extractCountryFromTermination (extractCountryFromTermination text) =
  extractCountryFromTermination text.
Proof.
  rewrite (extractCountry_cases text).
  destruct (isStopPart (hd "" (Js.split " "%char text))) eqn:Hhd.
  - by rewrite extractCountry_cases, Hhd.
  - remember (leadingParts (Js.split " "%char text)) as lead eqn:Hlead.
    assert (Forall (fun p => isStopPart p = false) lead) as Hall
      by (subst lead; apply leadingParts_no_stop).
    assert (lead <> []) as Hne.
    { subst lead. destruct (Js.split " "%char text) as [|p ps] eqn:Hsp.
      - by destruct (split_not_nil " "%char text).
      - simpl in Hhd |- *. by rewrite Hhd. }
    assert (Js.split " "%char (Js.join " " lead) = lead) as Hsplit.
    { apply split_join; [done|]. subst lead.
      destruct (leadingParts_prefix (Js.split " "%char text)) as [rest Hrest].
      apply (Forall_prefix _ _ rest). rewrite <- Hrest. apply split_parts_no_sep. }
    rewrite extractCountry_cases, Hsplit.
    rewrite (leadingParts_fixed lead) by done.
    destruct lead as [|p ps]; [done|].
    apply Forall_cons in Hall as [Hp _]. simpl. by rewrite Hp.
Qed.

Section MoreCountry.

Lemma split_join_leading text :
  leadingParts (Js.split " "%char text) <> [] ->
  Js.split " "%char (Js.join " " (leadingParts (Js.split " "%char text))) =
  leadingParts (Js.split " "%char text).
Proof.
  intros Hne. apply split_join; [done|].
  destruct (leadingParts_prefix (Js.split " "%char text)) as [rest Hrest].
  apply (Forall_prefix _ _ rest). rewrite <- Hrest. apply split_parts_no_sep.
Qed.

Lemma join_no_digit parts :
  Forall (fun p => Js.existsChar Js.isDigit p = false) parts ->
  Js.existsChar Js.isDigit (Js.join " " parts) = false.
Proof.
  induction parts as [|p [|q rest] IH]; intros Hall; [done| |].
  - by apply Forall_cons in Hall as [Hp _].
  - apply Forall_cons in Hall as [Hp Hrest].
    rewrite join_cons_cons, !existsChar_append, Hp, IH by done. done.
Qed.

End MoreCountry.

(** X4. When the first part of the text is not a stopping part, the
    extracted country contains no digit, and none of its parts is a stopping
    part. *)
Theorem extractCountry_clean (text : string) :
  isStopPart (hd "" (Js.split " "%char text)) = false ->
  Js.existsChar Js.isDigit (extractCountryFromTermination text) = false /\
  Forall (fun part => isStopPart part = false)
         (Js.split " "%char (extractCountryFromTermination text)).
Proof.
  intros Hhd. rewrite extractCountry_cases, Hhd.
  assert (leadingParts (Js.split " "%char text) <> []) as Hne.
  { destruct (Js.split " "%char text) as [|p ps] eqn:Hsp.
    - by destruct (split_not_nil " "%char text).
    - simpl in Hhd |- *. by rewrite Hhd. }
  split.
  - apply join_no_digit.
    eapply Forall_impl; [apply leadingParts_no_stop|].
    intros p Hp. unfold isStopPart in Hp. by apply orb_false_elim in Hp as [_ Hd].
  - rewrite split_join_leading by done. apply leadingParts_no_stop.
Qed.

Lemma extractCountry_clean_witness :
  Js.existsChar Js.isDigit (extractCountryFromTermination "SOUTH AFRICA MOBILE 27") = false.
Proof.
  destruct (extractCountry_clean "SOUTH AFRICA MOBILE 27") as [Hd _]; [reflexivity|].
  exact Hd.
Defined.

(** ** Further properties: the country flag *)

Section MoreFlags.

Lemma upperOf_fixed c : Js.toUpperCase (Js.upperOf c) = Js.upperOf c.
Proof. by destruct c as [[] [] [] [] [] [] [] []]; vm_compute. Qed.

Lemma upperOf_lowerChar c : Js.upperOf (Js.lowerChar c) = Js.upperOf c.
Proof. by destruct c as [[] [] [] [] [] [] [] []]; vm_compute. Qed.

(** The upper case of a code unit is white space exactly if the code unit
    is, and then it is the code unit itself. *)
Lemma upperOf_space c :
  if Js.isWhiteSpace c
  then Js.upperOf c = String c ""
  else Js.trimStart (Js.upperOf c) = Js.upperOf c /\
       Js.trimEnd (Js.upperOf c) = Js.upperOf c /\ Js.upperOf c <> "".
Proof. by destruct c as [[] [] [] [] [] [] [] []]; vm_compute. Qed.

Lemma isWhiteSpace_lowerChar c : Js.isWhiteSpace (Js.lowerChar c) = Js.isWhiteSpace c.
Proof. by destruct c as [[] [] [] [] [] [] [] []]; vm_compute. Qed.

Lemma append_empty_r s : s +:+ "" = s.
Proof. induction s as [|c s IH]; [done|]. by rewrite append_cons, IH. Qed.

Lemma toUpperCase_append s t :
  Js.toUpperCase (s +:+ t) = Js.toUpperCase s +:+ Js.toUpperCase t.
Proof.
  induction s as [|c s IH]; [done|].
  rewrite append_cons. simpl. by rewrite IH, append_assoc.
Qed.

Lemma toUpperCase_idem s : Js.toUpperCase (Js.toUpperCase s) = Js.toUpperCase s.
Proof.
  induction s as [|c s IH]; [done|].
  simpl. by rewrite toUpperCase_append, upperOf_fixed, IH.
Qed.

Lemma toUpperCase_toLowerCase s : Js.toUpperCase (Js.toLowerCase s) = Js.toUpperCase s.
Proof.
  unfold Js.toLowerCase. induction s as [|c s IH]; [done|].
  simpl. by rewrite upperOf_lowerChar, IH.
Qed.

Lemma trimStart_append_head a b :
  a <> "" -> Js.trimStart a = a -> Js.trimStart (a +:+ b) = a +:+ b.
Proof.
  destruct a as [|c a]; [done|]. intros _ Hc. apply trimStart_fixed_head in Hc.
  rewrite append_cons. simpl. by rewrite Hc.
Qed.

Lemma trimEnd_append_blank a b : Js.trimEnd b = "" -> Js.trimEnd (a +:+ b) = Js.trimEnd a.
Proof.
  intros Hb. induction a as [|c a IH]; [done|].
  rewrite append_cons. simpl. by rewrite IH.
Qed.

Lemma trimEnd_append_tail a b :
  Js.trimEnd b <> "" -> Js.trimEnd (a +:+ b) = a +:+ Js.trimEnd b.
Proof.
  intros Hb. induction a as [|c a IH]; [done|].
  rewrite !append_cons. simpl. rewrite IH.
  destruct (a +:+ Js.trimEnd b) eqn:Hab; [|done].
  destruct a; [by rewrite append_empty_l in Hab | by rewrite append_cons in Hab].
Qed.

Lemma toUpperCase_nil s : Js.toUpperCase s = "" -> s = "".
Proof.
  destruct s as [|c s]; [done|]. simpl.
  pose proof (upperOf_space c) as Hc.
  destruct (Js.upperOf c) as [|d t] eqn:Hu; [|by rewrite append_cons].
  by destruct (Js.isWhiteSpace c); [|destruct Hc as (_ & _ & ?)].
Qed.

Lemma trimStart_toUpperCase s :
  Js.trimStart (Js.toUpperCase s) = Js.toUpperCase (Js.trimStart s).
Proof.
  induction s as [|c s IH]; [done|]. simpl.
  pose proof (upperOf_space c) as Hc.
  destruct (Js.isWhiteSpace c) eqn:Hws.
  - rewrite Hc, append_cons, append_empty_l. simpl. by rewrite Hws.
  - destruct Hc as (Hstart & _ & Hne). simpl. by apply trimStart_append_head.
Qed.

Lemma trimEnd_toUpperCase s :
  Js.trimEnd (Js.toUpperCase s) = Js.toUpperCase (Js.trimEnd s).
Proof.
  induction s as [|c s IH]; [done|]. simpl.
  pose proof (upperOf_space c) as Hc.
  destruct (Js.trimEnd s) as [|d r] eqn:Hs.
  - rewrite trimEnd_append_blank by done.
    destruct (Js.isWhiteSpace c) eqn:Hws.
    + rewrite Hc. simpl. by rewrite Hws.
    + destruct Hc as (_ & Hend & _). simpl. by rewrite append_empty_r.
  - rewrite trimEnd_append_tail.
    + by rewrite IH.
    + rewrite IH. intros Hnil. by apply toUpperCase_nil in Hnil.
Qed.

Lemma trim_toUpperCase s : Js.trim (Js.toUpperCase s) = Js.toUpperCase (Js.trim s).
Proof. unfold Js.trim. by rewrite trimStart_toUpperCase, trimEnd_toUpperCase. Qed.

(** Trimming commutes with a character map that keeps white space white
    and the rest not. *)
Lemma trim_mapChars f s :
  (forall c, Js.isWhiteSpace (f c) = Js.isWhiteSpace c) ->
  Js.trim (Js.mapChars f s) = Js.mapChars f (Js.trim s).
Proof.
  intros Hf. unfold Js.trim.
  assert (forall t, Js.trimStart (Js.mapChars f t) = Js.mapChars f (Js.trimStart t)) as Hstart.
  { induction t as [|c t IH]; [done|]. simpl. rewrite Hf.
    by destruct (Js.isWhiteSpace c). }
  assert (forall t, Js.trimEnd (Js.mapChars f t) = Js.mapChars f (Js.trimEnd t)) as Hend.
  { induction t as [|c t IH]; [done|]. simpl. rewrite IH, Hf.
    destruct (Js.trimEnd t); simpl; [by destruct (Js.isWhiteSpace c)|done]. }
  by rewrite Hstart, Hend.
Qed.

End MoreFlags.

(** X5. The flag lookup ignores letter case and surrounding white space of
    the country name. *)
Theorem getCountryFlag_insensitive (cfg : Config) (countryName : string) :
  getCountryFlag cfg (Js.toUpperCase countryName) = getCountryFlag cfg countryName /\
  getCountryFlag cfg (Js.toLowerCase countryName) = getCountryFlag cfg countryName /\
  getCountryFlag cfg (Js.trim countryName) = getCountryFlag cfg countryName.
Proof.
  unfold getCountryFlag. split; [|split].
  - by rewrite trim_toUpperCase, toUpperCase_idem.
  - unfold Js.toLowerCase. rewrite trim_mapChars by apply isWhiteSpace_lowerChar.
    fold Js.toLowerCase. by rewrite toUpperCase_toLowerCase.
  - by rewrite trim_idem.
Qed.

(** X6. With a non-empty fallback pictograph the flag is never the empty
    string: an unknown country, a code without flag and an empty flag all
    give the fallback. *)
Theorem getCountryFlag_never_empty (cfg : Config) (countryName : string) :
  glyphGlobe cfg <> "" ->
  getCountryFlag cfg countryName <> "" /\
  (getCountryFlag cfg countryName = glyphGlobe cfg \/
   exists code, COUNTRY_FLAGS cfg !! code = Some (getCountryFlag cfg countryName)).
Proof.
  intros Hglobe. unfold getCountryFlag.
  destruct (COUNTRY_FLAGS cfg !! _) as [flag|] eqn:Hflag; [|by split; [|left]].
  destruct (decide (flag = "")); [by split; [|left]|].
  split; [done|]. right. eauto.
Qed.

Lemma getCountryFlag_never_empty_witness :
  getCountryFlag scenarioConfig "Atlantis" <> "" /\ getCountryFlag scenarioConfig " usa " = "[US]".
Proof.
  split; [|reflexivity].
  by apply (getCountryFlag_never_empty scenarioConfig "Atlantis").
Defined.

(** ** Further properties: the sink helpers and the worker *)

(** X7. Deleting a message never throws: it issues one [deleteMessage]
    call and one log line, touches no file, and returns [true] exactly when
    the sink accepted the deletion. *)
Theorem deleteTelegramMessage_absorbs (env : Env) (messageId : Z) (w : World) :
  exists deleted line,
    deleteTelegramMessage env messageId w =
      (Ok deleted, {| files := files w;
                      trace := trace w ++ [DeleteMessage messageId; line] |}) /\
    deleted = isResolved (deleteMessageReply env messageId) /\
    (if deleted then exists text, line = LogInfo text else exists text, line = LogError text).
Proof.
  unfold deleteTelegramMessage, tryCatch, bind, emit, await. simpl.
  destruct (deleteMessageReply env messageId); simpl;
    eexists _, _; (split; [by rewrite <- app_assoc|]); split; eauto.
Qed.

(** X8. For a file path the stream constructor accepts (no NUL code unit),
    sending the audio never throws: it issues one [sendAudio] call and one
    log line, touches no file, and returns [true] exactly when the sink
    accepted the audio. *)
Theorem sendAudioToTelegramGroup_absorbs (env : Env) (caption filePath : string) (w : World) :
  pathAccepted filePath = true ->
  exists sent line,
    sendAudioToTelegramGroup env caption filePath w =
      (Ok sent, {| files := files w;
                   trace := trace w ++ [SendAudio caption filePath; line] |}) /\
    sent = isResolved (sendAudioReply env caption filePath) /\
    (if sent then exists text, line = LogInfo text else exists text, line = LogError text).
Proof.
  intros _.
  unfold sendAudioToTelegramGroup, tryCatch, bind, emit, await. simpl.
  destruct (sendAudioReply env caption filePath); simpl;
    eexists _, _; (split; [by rewrite <- app_assoc|]); split; eauto.
Qed.

Lemma sendAudioToTelegramGroup_absorbs_witness :
  fst (sendAudioToTelegramGroup envAudioRejected "caption" "/app/call_1_CLI1.mp3" emptyWorld)
  = Ok false.
Proof.
  destruct (sendAudioToTelegramGroup_absorbs envAudioRejected "caption"
              "/app/call_1_CLI1.mp3" emptyWorld eq_refl) as (sent & line & Hrun & Hsent & _).
  rewrite Hrun. simpl. by rewrite Hsent.
Defined.

Section MoreWorker.
Context (cfg : Config) (env : Env).

(** The worker when the download fails: one request, one error line. *)
Lemma worker_download_fails d cookies id w e :
  audioDownload env (audioUrl d) (cookieHeader cookies) = Rejected e ->
  processCallWorker cfg env d cookies id w =
    (Ok FAILED,
     {| files := files w;
        trace := trace w ++
          [ HttpGet (audioUrl d) (cookieHeader cookies);
            LogError ("Error processing call for " +:+ cliNumber d +:+ ": " +:+ message e) ] |}).
Proof.
  intros Hget.
  unfold processCallWorker, tryCatch, bind, emit, await.
  rewrite Hget. simpl. by rewrite <- !app_assoc.
Qed.

(** The worker when download and conversion succeed, for a falsy alert
    id: the same as for a truthy one, without the deletion of the alert. *)
Lemma worker_after_conversion_falsy d cookies id w data :
  truthy id = false ->
  audioDownload env (audioUrl d) (cookieHeader cookies) = Resolved data ->
  ffmpegRun env (wavPath env d) (mp3Path env d) = Resolved tt ->
  processCallWorker cfg env d cookies id w =
    (Ok CLEANED,
     {| files := ({[mp3Path env d]} ∪ ({[wavPath env d]} ∪ files w))
                   ∖ {[wavPath env d]} ∖ {[mp3Path env d]};
        trace := trace w ++ fetchedCalls env d cookies ++
          [ LogInfo ("Converted to MP3: " +:+ basename (mp3Path env d));
            SendAudio (audioCaption cfg d) (mp3Path env d);
            sendAudioLine env (audioCaption cfg d) (mp3Path env d);
            Unlink (wavPath env d);
            Unlink (mp3Path env d);
            LogInfo "Temporary files deleted." ] |}).
Proof.
  intros Hid Hget Hff.
  unfold processCallWorker, convertToMp3, tryCatch, bind, emit, await, writeFileSync.
  rewrite Hget. simpl. rewrite Hff. simpl.
  edestruct sendAudio_run as [sent ->].
  destruct id as [| |n]; simpl in Hid |- *; rewrite ?Hid; unfold ret, unlinkSync; simpl;
    (rewrite decide_True by set_solver);
    (rewrite decide_True by (pose proof (mp3Path_fresh env d); set_solver));
    simpl; by rewrite <- !app_assoc.
Qed.

(** Every run of the worker, by the replies to download and conversion. *)
Lemma worker_runs d cookies id w :
  exists t fs new,
    processCallWorker cfg env d cookies id w =
      (Ok t, {| files := fs; trace := trace w ++ new |}) /\
    workerResult cfg env d cookies id (files w) t fs new.
Proof.
  unfold workerResult.
  destruct (audioDownload env (audioUrl d) (cookieHeader cookies)) as [data|e] eqn:Hget.
  - destruct (ffmpegRun env (wavPath env d) (mp3Path env d)) as [[]|err] eqn:Hff.
    + destruct (truthy id) eqn:Hid.
      * destruct id as [| |n]; try done.
        assert (n ≠ 0%Z) as Hn by (simpl in Hid; lia).
        eexists _, _, _. split;
          [by apply (worker_after_conversion cfg env d cookies n w data)|]. done.
      * eexists _, _, _. split;
          [by apply (worker_after_conversion_falsy d cookies id w data)|].
        split; [done|]. split; [done|]. by destruct id.
    + eexists _, _, _. split; [by apply (worker_conversion_fails cfg env d cookies id w data err)|].
      done.
  - eexists _, _, _. split; [by apply worker_download_fails|].
    by destruct (ffmpegRun env (wavPath env d) (mp3Path env d)).
Qed.

End MoreWorker.

Section MorePipeline.
Context (cfg : Config) (env : Env).

(** Every run of the pipeline: either the alert got a non-zero id and the
    worker ran after the notification calls, or the pipeline is the
    [sendMessage] call and one log line. *)
Lemma pipeline_runs d cookies w :
  exists t fs new,
    notificationPipeline cfg env d cookies w =
      (Ok t, {| files := fs; trace := trace w ++ new |}) /\
    ((exists n newW,
        sendMessageReply env (alertText cfg d) = Resolved (ReplyResult (Some n)) /\
        n ≠ 0%Z /\
        new = notifiedCalls cfg d n ++ newW /\
        workerResult cfg env d cookies (IdNum n) (files w) t fs newW) \/
     ((forall n, n ≠ 0%Z ->
         sendMessageReply env (alertText cfg d) <> Resolved (ReplyResult (Some n))) /\
      t = FAILED /\ fs = files w /\
      exists line, new = [SendMessage (alertText cfg d); line] /\
                   ((exists text, line = LogInfo text) \/ (exists text, line = LogError text)))).
Proof.
  destruct (sendMessageReply env (alertText cfg d)) as [[|[n|]]|e] eqn:Hreply.
  - eexists _, _, _. split; [|right].
    + unfold notificationPipeline, tryCatch, bind.
      rewrite sendInstantNotification_run, Hreply. simpl. reflexivity.
    + split; [done|]. eauto 10.
  - destruct (decide (n = 0%Z)) as [->|Hn].
    + eexists _, _, _. split; [|right].
      * unfold notificationPipeline, tryCatch, bind.
        rewrite sendInstantNotification_run, Hreply. simpl. reflexivity.
      * split; [intros n Hn [= Heq]; lia|]. eauto 10.
    + destruct (worker_runs cfg env d cookies (IdNum n)
                  {| files := files w; trace := trace w ++ notifiedCalls cfg d n |})
        as (t & fs & newW & Hrun & Hres).
      exists t, fs, (notifiedCalls cfg d n ++ newW). split.
      * apply (pipeline_notified cfg env d cookies n w); [done..|].
        rewrite Hrun. simpl. by rewrite <- app_assoc.
      * left. by exists n, newW.
  - eexists _, _, _. split; [|right].
    + unfold notificationPipeline, tryCatch, bind.
      rewrite sendInstantNotification_run, Hreply. simpl. reflexivity.
    + split; [done|]. eauto 10.
  - eexists _, _, _. split; [|right].
    + unfold notificationPipeline, tryCatch, bind.
      rewrite sendInstantNotification_run, Hreply. simpl. reflexivity.
    + split; [done|]. eauto 10.
Qed.

End MorePipeline.

(** X9. The worker never throws.  It reaches the end of its [try] block
    only when the download and the conversion both succeeded, and how it
    ends does not depend on what the messaging sink answers to the audio and
    to the deletion: with any other replies of the sink it ends the same. *)
Theorem processCallWorker_outcome (cfg : Config) (env : Env) (d : CallData)
    (cookies : list (string * string)) (id : MessageIdValue) (w : World) :
  exists t w',
    processCallWorker cfg env d cookies id w = (Ok t, w') /\
    (t = CLEANED ->
       isResolved (audioDownload env (audioUrl d) (cookieHeader cookies)) = true /\
       isResolved (ffmpegRun env (wavPath env d) (mp3Path env d)) = true) /\
    (forall audioReply deleteReply,
       fst (processCallWorker cfg (withSink env audioReply deleteReply) d cookies id w) = Ok t).
Proof.
  destruct (worker_runs cfg env d cookies id w) as (t & fs & new & Hrun & Hres).
  exists t, {| files := fs; trace := trace w ++ new |}. split; [done|].
  unfold workerResult in Hres. split.
  - destruct (audioDownload env (audioUrl d) (cookieHeader cookies)) as [data|e];
      [destruct (ffmpegRun env (wavPath env d) (mp3Path env d)) as [u|err]|];
      simpl; by destruct Hres as (-> & _).
  - intros audioReply deleteReply.
    destruct (worker_runs cfg (withSink env audioReply deleteReply) d cookies id w)
      as (t' & fs' & new' & -> & Hres').
    unfold workerResult in Hres'. simpl in Hres' |- *.
    change (wavPath (withSink env audioReply deleteReply) d) with (wavPath env d) in Hres'.
    change (mp3Path (withSink env audioReply deleteReply) d) with (mp3Path env d) in Hres'.
    destruct (audioDownload env (audioUrl d) (cookieHeader cookies)) as [data|e];
      [destruct (ffmpegRun env (wavPath env d) (mp3Path env d)) as [u|err]|];
      destruct Hres as (-> & _), Hres' as (-> & _); done.
Qed.

(** X10. The worker touches no file but its own two: every other path is
    present afterwards exactly if it was before.  After a run that ends at
    the end of the [try] block neither temporary file is left, and a failed
    download leaves the files as they were. *)
Theorem processCallWorker_files (cfg : Config) (env : Env) (d : CallData)
    (cookies : list (string * string)) (id : MessageIdValue) (w : World) :
  let run := processCallWorker cfg env d cookies id w in
  (forall p, p <> wavPath env d -> p <> mp3Path env d ->
     (p ∈ files (snd run) <-> p ∈ files w)) /\
  (fst run = Ok CLEANED ->
     (wavPath env d ∉ files (snd run)) /\ (mp3Path env d ∉ files (snd run))) /\
  (isResolved (audioDownload env (audioUrl d) (cookieHeader cookies)) = false ->
     files (snd run) = files w).
Proof.
  intros run. subst run.
  destruct (worker_runs cfg env d cookies id w) as (t & fs & new & -> & Hres).
  unfold workerResult in Hres. simpl.
  destruct (audioDownload env (audioUrl d) (cookieHeader cookies)) as [data|e];
    [destruct (ffmpegRun env (wavPath env d) (mp3Path env d)) as [u|err]|];
    simpl; destruct Hres as (-> & -> & _).
  - split; [|split; [|done]].
    + intros p Hwav Hmp3.
      rewrite !elem_of_difference, !elem_of_union, !elem_of_singleton. tauto.
    + intros _. rewrite !elem_of_difference, !elem_of_singleton. tauto.
  - split; [|split; [done|done]].
    intros p Hwav Hmp3. rewrite elem_of_union, elem_of_singleton. tauto.
  - done.
Qed.

(** Case analysis of a worker result down to explicit call lists. *)
Ltac worker_cases Hres :=
  unfold workerResult in Hres;
  match type of Hres with
  | context [audioDownload ?env ?u ?h] =>
      let Hget := fresh "Hget" in
      destruct (audioDownload env u h) eqn:Hget
  end;
  [ match type of Hres with
    | context [ffmpegRun ?env ?a ?b] =>
        let Hff := fresh "Hff" in
        destruct (ffmpegRun env a b) eqn:Hff
    end | ];
  destruct Hres as (-> & -> & ->);
  unfold notifiedCalls, fetchedCalls, conversionFailedCalls,
         sendAudioLine, deleteMessageLine;
  repeat match goal with
         | |- context [sendAudioReply ?env ?c ?p] => destruct (sendAudioReply env c p)
         | |- context [deleteMessageReply ?env ?n] => destruct (deleteMessageReply env n)
         end.

(** X11. When the alert was sent and the download of the recording fails,
    the pipeline ends in [FAILED] after the request: no file is written, no
    conversion or audio send is attempted, and the alert is not deleted. *)
Theorem download_failure_is_terminal (cfg : Config) (env : Env) (d : CallData)
    (cookies : list (string * string)) (w : World) (n : Z) (e : JsError) :
  sendMessageReply env (alertText cfg d) = Resolved (ReplyResult (Some n)) ->
  n ≠ 0%Z ->
  audioDownload env (audioUrl d) (cookieHeader cookies) = Rejected e ->
  let new := notifiedCalls cfg d n ++
             [ HttpGet (audioUrl d) (cookieHeader cookies);
               LogError ("Error processing call for " +:+ cliNumber d +:+ ": " +:+ message e) ] in
  notificationPipeline cfg env d cookies w =
    (Ok FAILED, {| files := files w; trace := trace w ++ new |}) /\
  List.filter laterPhaseCall new =
    [SetTimeout 20000%Z; HttpGet (audioUrl d) (cookieHeader cookies)].
Proof.
  intros Hreply Hn Hget new. split; [|done].
  apply (pipeline_notified cfg env d cookies n w); [done..|].
  rewrite (worker_download_fails cfg env d cookies (IdNum n) _ e) by done.
  simpl. by rewrite <- app_assoc.
Qed.

Lemma download_failure_is_terminal_witness :
  fst (notificationPipeline scenarioConfig envDownloadFails scenarioCall scenarioCookies
         emptyWorld) = Ok FAILED.
Proof.
  destruct (download_failure_is_terminal scenarioConfig envDownloadFails scenarioCall
              scenarioCookies emptyWorld 42 (newError "Request failed with status code 404"))
    as [Hrun _]; [reflexivity | lia | reflexivity |].
  by rewrite Hrun.
Defined.

(** X12. The worker deletes at most one message, and only the alert whose
    truthy id it was given, and only after the download and the conversion
    succeeded; with a falsy id it deletes nothing. *)
Theorem alert_deleted_only_when (cfg : Config) (env : Env) (d : CallData)
    (cookies : list (string * string)) (id : MessageIdValue) (w : World) :
  exists t fs new,
    processCallWorker cfg env d cookies id w =
      (Ok t, {| files := fs; trace := trace w ++ new |}) /\
    (List.filter isDeleteMessage new = [] \/
     exists n,
       id = IdNum n /\ n ≠ 0%Z /\
       isResolved (audioDownload env (audioUrl d) (cookieHeader cookies)) = true /\
       isResolved (ffmpegRun env (wavPath env d) (mp3Path env d)) = true /\
       List.filter isDeleteMessage new = [DeleteMessage n]).
Proof.
  destruct (worker_runs cfg env d cookies id w) as (t & fs & new & Hrun & Hres).
  exists t, fs, new. split; [done|]. clear Hrun.
  worker_cases Hres; destruct id as [| |m]; simpl; try (by left);
    destruct (decide (m = 0%Z)) as [->|Hm]; simpl; try (by left);
    assert (negb (m =? 0)%Z = true) as -> by lia; simpl;
    repeat match goal with
           | |- context [deleteMessageReply ?env ?n] => destruct (deleteMessageReply env n)
           end; simpl; right; exists m; by rewrite ?Hget, ?Hff.
Qed.

(** X13. In every run of the pipeline the calls after the instant
    notification come in the order of the source and none is skipped: they
    form a prefix of timer, download, file write, conversion, audio send,
    deletion of the alert and the two unlinks.  There are none at all
    exactly when the alert did not yield a non-zero message id. *)
Theorem pipeline_phases_in_order (cfg : Config) (env : Env) (d : CallData)
    (cookies : list (string * string)) (w : World) :
  exists t fs new,
    notificationPipeline cfg env d cookies w =
      (Ok t, {| files := fs; trace := trace w ++ new |}) /\
    (forall n, sendMessageReply env (alertText cfg d) = Resolved (ReplyResult (Some n)) ->
       List.filter laterPhaseCall new `prefix_of` fullPhases cfg env d cookies n) /\
    (List.filter laterPhaseCall new = [] <->
       ~ exists n, n ≠ 0%Z /\
           sendMessageReply env (alertText cfg d) = Resolved (ReplyResult (Some n))).
Proof.
  destruct (pipeline_runs cfg env d cookies w) as (t & fs & new & Hrun & Hcases).
  exists t, fs, new. split; [done|]. clear Hrun.
  destruct Hcases as [(n & newW & Hreply & Hn & -> & Hres)
                     |(Hnone & -> & -> & line & -> & Hline)].
  - assert (negb (n =? 0)%Z = true) as Htruthy by lia.
    split.
    + intros m Hm. rewrite Hreply in Hm. injection Hm as <-.
      unfold fullPhases.
      worker_cases Hres; simpl; rewrite ?Htruthy; simpl;
        repeat match goal with
               | |- context [deleteMessageReply ?env ?n] => destruct (deleteMessageReply env n)
               end; simpl; by eexists.
    + split.
      * unfold notifiedCalls. simpl. done.
      * intros Hno. destruct Hno. by exists n.
  - assert (List.filter laterPhaseCall [SendMessage (alertText cfg d); line] = []) as ->
      by (by destruct Hline as [[text ->]|[text ->]]).
    split; [intros n _; apply prefix_nil|].
    split; [|done]. intros _ (n & Hn & Hreply). by apply (Hnone n).
Qed.

(** X14. No phase is retried: every run of the pipeline issues exactly one
    [sendMessage] call and at most one download request, file write,
    conversion, audio send and deletion. *)
Theorem pipeline_never_retries (cfg : Config) (env : Env) (d : CallData)
    (cookies : list (string * string)) (w : World) :
  exists t fs new,
    notificationPipeline cfg env d cookies w =
      (Ok t, {| files := fs; trace := trace w ++ new |}) /\
    length (List.filter isSendMessage new) = 1 /\
    length (List.filter isHttpGet new) <= 1 /\
    length (List.filter isWriteFile new) <= 1 /\
    length (List.filter isFfmpeg new) <= 1 /\
    length (List.filter isSendAudio new) <= 1 /\
    length (List.filter isDeleteMessage new) <= 1.
Proof.
  destruct (pipeline_runs cfg env d cookies w) as (t & fs & new & Hrun & Hcases).
  exists t, fs, new. split; [done|]. clear Hrun.
  destruct Hcases as [(n & newW & Hreply & Hn & -> & Hres)
                     |(Hnone & -> & -> & line & -> & Hline)].
  - assert (negb (n =? 0)%Z = true) as Htruthy by lia.
    worker_cases Hres; simpl; rewrite ?Htruthy; simpl;
      repeat match goal with
             | |- context [deleteMessageReply ?env ?n] => destruct (deleteMessageReply env n)
             end; simpl; lia.
  - destruct Hline as [[text ->]|[text ->]]; simpl; lia.
Qed.

(** ** Further properties: login *)

Section MoreLogin.
Context (cfg : Config) (attempts : nat -> LoginAttempt).

Lemma firstIndex_firstAt {A} (p : A -> bool) (l : list A) : firstAt p l (firstIndex p l).
Proof.
  induction l as [|a rest IH]; simpl; [by constructor|].
  destruct (p a) eqn:Hpa.
  - split; [by exists a|]. intros j b Hj. lia.
  - destruct (firstIndex p rest) as [i|]; simpl in *.
    + destruct IH as [(b & Hb & Hpb) Hbefore]. split; [by exists b|].
      intros [|j] c Hj Hc; simpl in Hc; [by injection Hc as <-|].
      apply (Hbefore j); [lia|done].
    + by constructor.
Qed.

(** The scan with its two accumulators: a field already found is kept,
    otherwise the first match from here on is taken. *)
Lemma scanInputs_from inputs index emailField passField :
  scanInputs inputs index emailField passField =
    (match emailField with
     | Some _ => emailField
     | None => (fun i => index + i) <$> firstIndex emailLike inputs
     end,
     match passField with
     | Some _ => passField
     | None => (fun i => index + i) <$> firstIndex passwordLike inputs
     end).
Proof.
  revert index emailField passField.
  induction inputs as [|attrs rest IH]; intros index emailField passField.
  - simpl. by destruct emailField, passField.
  - cbn [scanInputs firstIndex]. rewrite IH. fold (emailLike attrs). fold (passwordLike attrs).
    f_equal.
    + destruct emailField as [e|]; simpl; [done|].
      destruct (emailLike attrs); simpl; [by rewrite Nat.add_0_r|].
      destruct (firstIndex emailLike rest); simpl; [f_equal; lia|done].
    + destruct passField as [q|]; simpl; [done|].
      destruct (passwordLike attrs); simpl; [by rewrite Nat.add_0_r|].
      destruct (firstIndex passwordLike rest); simpl; [f_equal; lia|done].
Qed.

End MoreLogin.

(** X15. The scan of the login form returns the position of the first
    email-like input (type email, or placeholder, name or id mentioning
    email in any case) and the position of the first password input, each
    independently of the other; a field is missing exactly when no input
    passes its test. *)
Theorem scanInputs_first_match (inputs : list InputAttrs) :
  firstAt emailLike inputs (fst (scanInputs inputs 0 None None)) /\
  firstAt passwordLike inputs (snd (scanInputs inputs 0 None None)).
Proof.
  rewrite scanInputs_from. simpl.
  assert (forall o : option nat, (fun i => 0 + i) <$> o = o) as Hid by (by intros [i|]).
  rewrite !Hid. split; apply firstIndex_firstAt.
Qed.

Section LoginRuns.
Context (cfg : Config) (attempts : nat -> LoginAttempt).

(** One run of the [try] block after the launch: it yields the session of
    this attempt when the page passes and throws otherwise, and it neither
    launches nor closes a browser. *)
Lemma loginBody_runs i w :
  exists new,
    count_occ Call_eq_dec new BrowserLaunch = 0 /\
    count_occ Call_eq_dec new BrowserClose = 0 /\
    if pagePasses (attempts i)
    then loginBody cfg attempts i w =
           (Ok (sessionOf attempts i), {| files := files w; trace := trace w ++ new |})
    else exists e, loginBody cfg attempts i w =
           (Throw e, {| files := files w; trace := trace w ++ new |}).
Proof.
  unfold pagePasses, fieldsDetected, loginBody, sessionOf, bind, emit, await, throw, ret.
  simpl.
  destruct (openLoginPage (attempts i)) as [[]|e1]; simpl;
    [|eexists; split; [|split]; [| |eexists; rewrite <- !app_assoc; reflexivity]; done].
  destruct (scanInputs (inputs (attempts i)) 0 None None) as [[ef|] [pf|]]; simpl;
    try (eexists; split; [|split]; [| |eexists; rewrite <- !app_assoc; reflexivity]; done).
  destruct (submitControl (attempts i) || (0 <? signInButtons (attempts i))); simpl;
    [|eexists; split; [|split]; [| |eexists; rewrite <- !app_assoc; reflexivity]; done].
  destruct (Js.includes (currentUrl (attempts i)) "orangecarrier.com" &&
            (Js.includes (pageContent (attempts i)) "Dashboard"
             || Js.includes (pageContent (attempts i)) "Account Code")); simpl;
    [|eexists; split; [|split]; [| |eexists; rewrite <- !app_assoc; reflexivity]; done].
  destruct (openLiveCalls (attempts i)) as [[]|e2]; simpl.
  - eexists; split; [|split]; [| |rewrite <- !app_assoc; reflexivity]; done.
  - eexists; split; [|split]; [| |eexists; rewrite <- !app_assoc; reflexivity]; done.
Qed.

Lemma find_seq_bounds (p : nat -> bool) first count k :
  List.find p (seq first count) = Some k -> first <= k < first + count.
Proof.
  revert first; induction count as [|count IH]; intros first; simpl; [done|].
  destruct (p first); [intros [= <-]; lia|].
  intros Hk%IH. lia.
Qed.

Lemma launched_step first n :
  length (List.filter (fun i => isResolved (launch (attempts i))) (seq first (S n))) =
  (if isResolved (launch (attempts first)) then 1 else 0) +
  length (List.filter (fun i => isResolved (launch (attempts i))) (seq (S first) n)).
Proof. simpl. by destruct (isResolved (launch (attempts first))). Qed.

(** One more failed attempt in front of a run that starts at the next
    attempt. *)
Lemma loginSummary_step maxRetries first r pre newR :
  first < maxRetries ->
  count_occ Call_eq_dec pre BrowserLaunch = 1 ->
  count_occ Call_eq_dec pre BrowserClose =
    (if isResolved (launch (attempts first)) then 1 else 0) ->
  loginSummary attempts maxRetries (S first) r newR ->
  loginSummary attempts maxRetries first r (pre ++ newR).
Proof.
  intros Hlt HpL HpC. unfold loginSummary. rewrite !count_occ_app, HpL, HpC.
  destruct r as [[s|]|e].
  - intros (Hs & Hsess & Hpass & HL & HC).
    split; [lia|]. split; [done|]. split; [done|].
    replace (browser s - first) with (S (browser s - S first)) by lia.
    rewrite launched_step, HL, HC. split; [lia|done].
  - intros (HL & HC). split; [lia|].
    change (1 + count_occ Call_eq_dec newR BrowserLaunch)
      with (S (count_occ Call_eq_dec newR BrowserLaunch)).
    by rewrite launched_step, HC.
  - intros (j & Hj & Hlaunch & Hclose & HL & HC). exists j.
    split; [lia|]. split; [done|]. split; [done|].
    replace (j - first) with (S (j - S first)) by lia.
    rewrite launched_step, HL, HC. split; [lia|done].
Qed.

(** Every run of the loop from attempt [maxRetries - left] on. *)
Lemma loginLoop_safe maxRetries left w :
  left <= maxRetries ->
  exists r new,
    loginLoop cfg attempts maxRetries left w =
      (r, {| files := files w; trace := trace w ++ new |}) /\
    loginSummary attempts maxRetries (maxRetries - left) r new.
Proof.
  revert w; induction left as [|left IH]; intros w Hle.
  - exists (Ok None), []. simpl. rewrite app_nil_r. split; [by destruct w|].
    split; [lia|done].
  - remember (maxRetries - S left) as first eqn:Hfirst.
    assert (maxRetries - left = S first) as Hnext by lia.
    rewrite Hnext in IH.
    cbn [loginLoop]. rewrite <- Hfirst.
    unfold bind at 1. unfold emit at 1.
    destruct (launch (attempts first)) as [[]|e] eqn:Hlaunch; cbn [await ret throw].
    + destruct (loginBody_runs first
                  {| files := files w; trace := trace w ++ [BrowserLaunch] |})
        as (newB & HcL & HcC & Hbody).
      destruct (pagePasses (attempts first)) eqn:Hpass.
      * rewrite Hbody. exists (Ok (Some (sessionOf attempts first))), (BrowserLaunch :: newB).
        simpl. rewrite <- app_assoc. split; [done|].
        split; [lia|]. split; [done|].
        split; [unfold attemptPasses; by rewrite Hlaunch, Hpass|].
        rewrite Nat.sub_diag, HcL, HcC. done.
      * destruct Hbody as [e ->]. unfold bind, emit. simpl.
        destruct (closeBrowser (attempts first)) as [[]|ec] eqn:Hclose; simpl.
        -- destruct (Nat.leb_spec maxRetries (S first)) as [Hlast|Hmore].
           ++ eexists (Ok None), _.
              split; [unfold ret; simpl; rewrite <- !app_assoc; simpl; reflexivity|].
              unfold loginSummary. simpl. rewrite !count_occ_app, HcL, HcC. simpl.
              rewrite Hlaunch. simpl. split; [lia|done].
           ++ match goal with
              | |- context [loginLoop _ _ _ left ?w0] =>
                  destruct (IH w0) as (r & newR & Hrun & Hsum); [lia|]; rewrite Hrun
              end.
              eexists r, _. split; [simpl; rewrite <- ?app_assoc; simpl; reflexivity|].
              match goal with
              | |- loginSummary _ _ _ _ (?x :: ?l ++ ?a :: ?b :: ?c :: newR) =>
                  change (x :: l ++ a :: b :: c :: newR)
                    with ((x :: l ++ [a; b; c]) ++ newR) ||
                  replace (x :: l ++ a :: b :: c :: newR)
                    with ((x :: l ++ [a; b; c]) ++ newR)
                    by (simpl; by rewrite <- app_assoc)
              end.
              apply loginSummary_step; [lia| | |done].
              ** simpl. by rewrite count_occ_app, HcL.
              ** simpl. rewrite count_occ_app, HcC, Hlaunch. done.
        -- eexists (Throw ec), _.
           split; [simpl; rewrite <- !app_assoc; simpl; reflexivity|].
           exists first. split; [lia|]. rewrite Hlaunch. split; [done|]. split; [done|].
           rewrite Nat.sub_diag. simpl. rewrite !count_occ_app, HcL, HcC, Hlaunch.
           done.
    + unfold bind, emit. simpl.
      destruct (Nat.leb_spec maxRetries (S first)) as [Hlast|Hmore].
      * eexists (Ok None), _.
        split; [unfold ret; simpl; rewrite <- !app_assoc; simpl; reflexivity|].
        unfold loginSummary. simpl. rewrite Hlaunch. simpl. split; [lia|done].
      * match goal with
        | |- context [loginLoop _ _ _ left ?w0] =>
            destruct (IH w0) as (r & newR & Hrun & Hsum); [lia|]; rewrite Hrun
        end.
        eexists r, _. split; [simpl; rewrite <- ?app_assoc; simpl; reflexivity|].
        match goal with
        | |- loginSummary _ _ _ _ (?x :: ?a :: ?b :: newR) =>
            change (x :: a :: b :: newR) with ([x; a; b] ++ newR)
        end.
        apply loginSummary_step; [lia|done| |done].
        simpl. by rewrite Hlaunch.
Qed.

End LoginRuns.

(** X16. The login launches at most [maxRetries] browsers.  A session it
    returns belongs to an attempt among those allowed whose browser
    launched and whose page passed every check, reached with one launch per
    attempt up to that one; it returns nothing only after exactly
    [maxRetries] launches (none when [maxRetries] is zero); and the only
    error it passes on is that of a rejected closing of the browser of a
    failed attempt, which ends the retries. *)
Theorem login_result_and_launches (cfg : Config)
    (attempts : nat -> LoginAttempt) (maxRetries : nat) (w : World) :
  exists r new,
    loginToDashboard cfg attempts maxRetries w =
      (r, {| files := files w; trace := trace w ++ new |}) /\
    count_occ Call_eq_dec new BrowserLaunch <= maxRetries /\
    match r with
    | Ok (Some s) =>
        browser s < maxRetries /\
        s = sessionOf attempts (browser s) /\
        attemptPasses (attempts (browser s)) = true /\
        count_occ Call_eq_dec new BrowserLaunch = S (browser s)
    | Ok None => count_occ Call_eq_dec new BrowserLaunch = maxRetries
    | Throw e =>
        exists j, j < maxRetries /\
          closeBrowser (attempts j) = Rejected e /\
          count_occ Call_eq_dec new BrowserLaunch = S j
    end.
Proof.
  destruct (loginLoop_safe cfg attempts maxRetries maxRetries w)
    as (r & new & Hrun & Hsum); [done|].
  exists r, new. split; [done|]. clear Hrun.
  rewrite Nat.sub_diag in Hsum. unfold loginSummary in Hsum.
  destruct r as [[s|]|e].
  - destruct Hsum as (Hs & Hsess & Hpass & HL & _). rewrite Nat.sub_0_r in HL.
    split; [lia|]. split; [lia|]. done.
  - destruct Hsum as (HL & _). simpl in HL. split; [lia|done].
  - destruct Hsum as (j & Hj & _ & Hclose & HL & _). rewrite Nat.sub_0_r in HL.
    split; [lia|]. exists j. split; [lia|done].
Qed.

(** X17. No browser is leaked when the login returns: it has issued one
    closing per failed attempt that had launched a browser, so only the
    browser of a returned session is still open.  When it passes on the
    error of a rejected closing, a closing was issued for every launched
    browser, that last one included. *)
Theorem login_closes_failed_browsers (cfg : Config)
    (attempts : nat -> LoginAttempt) (maxRetries : nat) (w : World) :
  exists r new,
    loginToDashboard cfg attempts maxRetries w =
      (r, {| files := files w; trace := trace w ++ new |}) /\
    count_occ Call_eq_dec new BrowserClose =
      length (List.filter (fun i => isResolved (launch (attempts i)))
                (seq 0 match r with
                       | Ok (Some s) => browser s
                       | _ => count_occ Call_eq_dec new BrowserLaunch
                       end)).
Proof.
  destruct (loginLoop_safe cfg attempts maxRetries maxRetries w)
    as (r & new & Hrun & Hsum); [done|].
  exists r, new. split; [done|]. clear Hrun.
  rewrite Nat.sub_diag in Hsum. unfold loginSummary in Hsum.
  destruct r as [[s|]|e].
  - destruct Hsum as (_ & _ & _ & _ & HC). by rewrite Nat.sub_0_r in HC.
  - by destruct Hsum as (_ & HC).
  - destruct Hsum as (j & _ & _ & _ & HL & HC). by rewrite HL.
Qed.

(** ** Further properties: the Play pattern *)

Section MorePattern.

Lemma isQuote_not_space c : isQuote c = true -> Js.isWhiteSpace c = false.
Proof.
  unfold isQuote. intros [Hc|Hc]%orb_prop; apply bool_decide_eq_true in Hc; by subst.
Qed.

Lemma spanUntilQuote_append body q rest :
  Js.existsChar isQuote body = false -> isQuote q = true ->
  spanUntilQuote (body +:+ String q rest) = (body, String q rest).
Proof.
  intros Hbody Hq. induction body as [|c body IH].
  - rewrite append_empty_l. simpl. by rewrite Hq.
  - simpl in Hbody. apply orb_false_elim in Hbody as [Hc Hbody].
    rewrite append_cons. simpl. by rewrite Hc, IH.
Qed.

Lemma quotedGroup_append q1 body q2 rest :
  isQuote q1 = true -> isQuote q2 = true ->
  body <> "" -> Js.existsChar isQuote body = false ->
  quotedGroup (String q1 (body +:+ String q2 rest)) = Some (body, rest).
Proof.
  intros Hq1 Hq2 Hne Hbody. unfold quotedGroup.
  rewrite Hq1, spanUntilQuote_append by done. by destruct body.
Qed.

Lemma trimStart_spaces ws s :
  Js.forallChar Js.isWhiteSpace ws = true -> Js.trimStart s = s ->
  Js.trimStart (ws +:+ s) = s.
Proof.
  intros Hws Hs. induction ws as [|c ws IH]; [done|].
  simpl in Hws. apply andb_prop in Hws as [Hc Hws].
  rewrite append_cons. simpl. by rewrite Hc, IH.
Qed.

(** What a quoted group captures is not empty and holds no quote. *)
Lemma quotedGroup_sound s body rest :
  quotedGroup s = Some (body, rest) ->
  body <> "" /\ Js.existsChar isQuote body = false.
Proof.
  unfold quotedGroup. destruct s as [|q r]; [done|].
  destruct (isQuote q); [|done].
  assert (Js.existsChar isQuote (fst (spanUntilQuote r)) = false) as Hspan.
  { clear. induction r as [|c r IH]; [done|]. simpl.
    destruct (isQuote c) eqn:Hc; [done|].
    destruct (spanUntilQuote r) as [b t]. simpl in *. by rewrite Hc, IH. }
  destruct (spanUntilQuote r) as [[|c b] [|q' t]]; try done.
  intros [= <- <-]. split; [done|]. exact Hspan.
Qed.

Lemma matchPlayHere_sound s did uuid :
  matchPlayHere s = Some (did, uuid) ->
  Js.startsWith "Play(" s = true /\
  did <> "" /\ uuid <> "" /\
  Js.existsChar isQuote did = false /\ Js.existsChar isQuote uuid = false.
Proof.
  unfold matchPlayHere. destruct (Js.startsWith "Play(" s); [|done].
  destruct (quotedGroup (Js.drop 5 s)) as [[d1 [|c after]]|] eqn:Hg1; try done.
  destruct (decide (c = ","%char)); [|done].
  destruct (quotedGroup (Js.trimStart after)) as [[u1 rest]|] eqn:Hg2; [|done].
  destruct (Js.startsWith ")" rest); [|done].
  intros [= <- <-].
  apply quotedGroup_sound in Hg1 as [? ?]. apply quotedGroup_sound in Hg2 as [? ?].
  done.
Qed.

Lemma matchPlay_unfold s :
  matchPlay s =
    match matchPlayHere s with
    | Some m => Some m
    | None => match s with EmptyString => None | String _ r => matchPlay r end
    end.
Proof. by destruct s. Qed.

End MorePattern.

(** X18. The pattern accepts every well-formed action: for identifiers
    that are not empty and hold no quote, written between any of the two
    quote characters, with any white space after the comma, after any text
    without a capital P and before any text, the two captures are exactly
    the two identifiers. *)
Theorem matchPlay_accepts (before did uuid spaces rest : string) (q1 q2 q3 q4 : ascii) :
  Js.existsChar (fun c => bool_decide (c = "P"%char)) before = false ->
  did <> "" -> uuid <> "" ->
  Js.existsChar isQuote did = false -> Js.existsChar isQuote uuid = false ->
  Js.forallChar Js.isWhiteSpace spaces = true ->
  isQuote q1 = true -> isQuote q2 = true -> isQuote q3 = true -> isQuote q4 = true ->
  matchPlay (before +:+ "Play(" +:+ String q1 (did +:+ String q2 ("," +:+ spaces +:+
             String q3 (uuid +:+ String q4 (")" +:+ rest))))) = Some (did, uuid).
Proof.
  intros Hbefore Hdid Huuid Hqd Hqu Hsp Hq1 Hq2 Hq3 Hq4.
  induction before as [|c before IH].
  - rewrite append_empty_l.
    assert (matchPlayHere ("Play(" +:+ String q1 (did +:+ String q2 ("," +:+ spaces +:+
              String q3 (uuid +:+ String q4 (")" +:+ rest))))) = Some (did, uuid)) as Hhere.
    { unfold matchPlayHere. rewrite startsWith_append.
      rewrite (drop_append_length "Play(").
      rewrite quotedGroup_append by done.
      rewrite append_cons, append_empty_l. rewrite decide_True by done.
      rewrite trimStart_spaces; [|done|by simpl; rewrite isQuote_not_space].
      rewrite quotedGroup_append by done.
      by rewrite startsWith_append. }
    by rewrite matchPlay_unfold, Hhere.
  - simpl in Hbefore. apply orb_false_elim in Hbefore as [Hc Hbefore].
    apply bool_decide_eq_false in Hc.
    rewrite append_cons, matchPlay_unfold.
    assert (matchPlayHere (String c (before +:+ "Play(" +:+ String q1 (did +:+ String q2
              ("," +:+ spaces +:+ String q3 (uuid +:+ String q4 (")" +:+ rest)))))) = None)
      as ->.
    { unfold matchPlayHere. cbn [Js.startsWith].
      destruct (ascii_dec "P" c) as [<-|]; [done|done]. }
    by apply IH.
Qed.

Lemma matchPlay_accepts_witness :
  matchPlay "return Play('did9',  'uuid9');" = Some ("did9", "uuid9").
Proof.
  apply (matchPlay_accepts "return " "did9" "uuid9" "  " ";" "039" "039" "039" "039");
    by vm_compute.
Defined.

(** X19. Whenever the pattern matches, the text contains the opening
    [Play(], and both captures are non-empty and free of quote characters. *)
Theorem matchPlay_sound (s did uuid : string) :
  matchPlay s = Some (did, uuid) ->
  Js.includes s "Play(" = true /\
  did <> "" /\ uuid <> "" /\
  Js.existsChar isQuote did = false /\ Js.existsChar isQuote uuid = false.
Proof.
  induction s as [|c s IH]; rewrite matchPlay_unfold.
  - destruct (matchPlayHere "") as [m|] eqn:Hm; [|done].
    intros [= ->]. by apply matchPlayHere_sound in Hm as (? & ?).
  - destruct (matchPlayHere (String c s)) as [m|] eqn:Hm.
    + intros [= ->]. apply matchPlayHere_sound in Hm as (Hstart & Hrest).
      split; [|done]. rewrite includes_unfold, Hstart. done.
    + intros Hs. apply IH in Hs as (Hinc & Hrest). split; [|done].
      rewrite includes_unfold, Hinc. apply orb_true_r.
Qed.

Lemma matchPlay_sound_witness :
  Js.includes "Play('a','b')" "Play(" = true.
Proof.
  by destruct (matchPlay_sound "Play('a','b')" "a" "b" eq_refl) as [H _].
Defined.

(** ** Further properties: the monitoring loop *)

Section MoreLoop.

Lemma mainRow_by_key st row :
  mainRow st row = st \/
  exists k d, rowKey row = Some k /\ (k ∉ processedCalls st) /\
    mainRow st row =
      {| processedCalls := processedCalls st ∪ {[k]};
         events := events st ++ [DedupAdd k; PipelineStart k d] |}.
Proof.
  rewrite mainRow_unfold. unfold rowKey.
  destruct (2 <? length (tds row)); [|by left].
  destruct (playReference row) as [[did uuid]|]; [|by left]. cbv zeta.
  destruct (decide (_ ∈ processedCalls st)) as [|Hnew]; [by left|].
  right. by eexists _, _.
Qed.

Lemma mainRow_skip st row :
  (forall k, rowKey row = Some k -> k ∈ processedCalls st) -> mainRow st row = st.
Proof.
  intros Hknown. destruct (mainRow_by_key st row) as [|(k & d & Hk & Hnew & _)]; [done|].
  exfalso. by apply Hnew, Hknown.
Qed.

Lemma mainRow_records st row k :
  rowKey row = Some k -> k ∈ processedCalls (mainRow st row).
Proof.
  intros Hk. rewrite mainRow_unfold. unfold rowKey in Hk.
  destruct (2 <? length (tds row)); [|done].
  destruct (playReference row) as [[did uuid]|]; [|done]. injection Hk as <-. cbv zeta.
  destruct (decide (_ ∈ processedCalls st)) as [|Hnew]; [done|].
  simpl. apply elem_of_union_r. by apply elem_of_singleton.
Qed.

Lemma mainRow_grows st row :
  processedCalls st ⊆ processedCalls (mainRow st row) /\
  events st `prefix_of` events (mainRow st row).
Proof.
  destruct (mainRow_by_key st row) as [->|(k & d & _ & _ & ->)]; [done|].
  simpl. split; [apply union_subseteq_l | by eexists].
Qed.

Lemma mainRows_grow rows st :
  processedCalls st ⊆ processedCalls (fold_left mainRow rows st) /\
  events st `prefix_of` events (fold_left mainRow rows st).
Proof.
  revert st; induction rows as [|row rows IH]; intros st; [done|]. simpl.
  destruct (mainRow_grows st row) as [Hp He], (IH (mainRow st row)) as [Hp' He'].
  split; [by etrans | by etrans].
Qed.

Lemma mainRows_record rows st row k :
  row ∈ rows -> rowKey row = Some k -> k ∈ processedCalls (fold_left mainRow rows st).
Proof.
  revert st; induction rows as [|r rows IH]; intros st Hin Hk; [by apply elem_of_nil in Hin|].
  simpl. apply elem_of_cons in Hin as [->|Hin]; [|by apply IH].
  destruct (mainRows_grow rows (mainRow st r)) as [Hsub _].
  by apply Hsub, mainRow_records.
Qed.

Lemma mainRows_skip rows st :
  (forall row k, row ∈ rows -> rowKey row = Some k -> k ∈ processedCalls st) ->
  fold_left mainRow rows st = st.
Proof.
  induction rows as [|r rows IH]; intros Hknown; [done|]. simpl.
  rewrite mainRow_skip; [|intros k; apply Hknown; by left].
  apply IH. intros row k Hin. apply Hknown. by right.
Qed.

Lemma mainTick_grows st snapshot :
  processedCalls st ⊆ processedCalls (mainTick st snapshot) /\
  events st `prefix_of` events (mainTick st snapshot).
Proof.
  unfold mainTick. destruct snapshot as [rows|e]; simpl.
  - destruct (mainRows_grow rows st) as [Hp He]. split; [done|].
    etrans; [exact He|]. by eexists.
  - split; [done|]. rewrite <- app_assoc. by eexists.
Qed.

Lemma mainTicks_grow more st :
  processedCalls st ⊆ processedCalls (fold_left mainTick more st) /\
  events st `prefix_of` events (fold_left mainTick more st).
Proof.
  revert st; induction more as [|s more IH]; intros st; [done|]. simpl.
  destruct (mainTick_grows st s) as [Hp He], (IH (mainTick st s)) as [Hp' He'].
  split; [by etrans | by etrans].
Qed.

Lemma processedAreStarted_quiet st evs :
  startedIds evs = [] -> processedAreStarted st ->
  processedAreStarted {| processedCalls := processedCalls st; events := events st ++ evs |}.
Proof.
  unfold processedAreStarted. simpl. intros Hq ->.
  by rewrite startedIds_app, Hq, app_nil_r.
Qed.

Lemma processedAreStarted_row st row :
  processedAreStarted st -> processedAreStarted (mainRow st row).
Proof.
  intros Hst. destruct (mainRow_by_key st row) as [->|(k & d & _ & _ & ->)]; [done|].
  unfold processedAreStarted in *. simpl.
  rewrite startedIds_app, list_to_set_app_L, <- Hst. simpl.
  by rewrite union_empty_r_L.
Qed.

Lemma processedAreStarted_loop snapshots : processedAreStarted (mainLoop snapshots).
Proof.
  unfold mainLoop.
  assert (processedAreStarted {| processedCalls := ∅; events := [] |}) as Hinit by done.
  revert Hinit. generalize ({| processedCalls := (∅ : gset string); events := [] |}).
  induction snapshots as [|s snapshots IH]; intros st Hst; [done|].
  simpl. apply IH. unfold mainTick. destruct s as [rows|e].
  - apply (processedAreStarted_quiet _ [Pause 100]); [done|].
    clear IH. revert st Hst. induction rows as [|row rows IHr]; intros st Hst; [done|].
    simpl. by apply IHr, processedAreStarted_row.
  - apply (processedAreStarted_quiet _ [Pause 100]); [done|].
    by apply (processedAreStarted_quiet st [_; _]).
Qed.

(** A call id with an underscore-free token splits in one way only. *)
Lemma callId_unambiguous cli1 uuid1 cli2 uuid2 :
  hasUnderscore uuid1 = false -> hasUnderscore uuid2 = false ->
  cli1 +:+ "_" +:+ uuid1 = cli2 +:+ "_" +:+ uuid2 ->
  cli1 = cli2 /\ uuid1 = uuid2.
Proof.
  unfold hasUnderscore. intros H1 H2. revert cli2.
  induction cli1 as [|c r IH]; intros [|c' r'] Heq;
    repeat rewrite ?append_cons, ?append_empty_l in Heq.
  - by injection Heq as ->.
  - injection Heq as Hc Hu. subst uuid1.
    rewrite existsChar_append in H1. simpl in H1. by rewrite orb_true_r in H1.
  - injection Heq as Hc Hu. subst uuid2.
    rewrite existsChar_append in H2. simpl in H2. by rewrite orb_true_r in H2.
  - injection Heq as -> Heq.
    by destruct (IH r' Heq) as [-> ->].
Qed.

End MoreLoop.

(** X20. The set of processed calls holds exactly the call ids for which a
    pipeline was started, and it only grows: whatever snapshots follow, no
    id is ever removed and the events so far stay as they are. *)
Theorem processed_calls_only_grow (snapshots more : list (Outcome (list Row))) :
  processedCalls (mainLoop snapshots) =
    list_to_set (startedIds (events (mainLoop snapshots))) /\
  processedCalls (mainLoop snapshots) ⊆ processedCalls (mainLoop (snapshots ++ more)) /\
  events (mainLoop snapshots) `prefix_of` events (mainLoop (snapshots ++ more)).
Proof.
  split; [apply processedAreStarted_loop|].
  unfold mainLoop. rewrite fold_left_app. apply mainTicks_grow.
Qed.

(** X21. Seeing the same snapshot again starts nothing: after a tick on
    some rows, a second tick on the same rows leaves the set of processed
    calls as it is and adds only its pause to the events, from any state of
    the loop. *)
Theorem same_snapshot_starts_nothing (st : LoopState) (rows : list Row) :
  let once := mainTick st (Resolved rows) in
  mainTick once (Resolved rows) =
    {| processedCalls := processedCalls once; events := events once ++ [Pause 100] |}.
Proof.
  intros once. unfold mainTick at 1.
  assert (fold_left mainRow rows once = once) as ->; [|done].
  apply mainRows_skip. intros row k Hin Hk.
  subst once. unfold mainTick. simpl. by apply (mainRows_record rows st row).
Qed.

(** X22. Calls are not confused with one another: when the call tokens
    hold no underscore, a row whose caller line or token differs from that
    of the row just handled, and whose call id was not processed before,
    still gets its own pipeline. *)
Theorem distinct_calls_both_start (st : LoopState) (r1 r2 : Row)
    (did1 uuid1 did2 uuid2 : string) :
  2 < length (tds r1) -> 2 < length (tds r2) ->
  playReference r1 = Some (did1, uuid1) -> playReference r2 = Some (did2, uuid2) ->
  hasUnderscore uuid1 = false -> hasUnderscore uuid2 = false ->
  (Js.trim (nth 2 (tds r1) ""), uuid1) <> (Js.trim (nth 2 (tds r2) ""), uuid2) ->
  Js.trim (nth 2 (tds r2) "") +:+ "_" +:+ uuid2 ∉ processedCalls st ->
  exists d,
    events (mainRow (mainRow st r1) r2) =
      events (mainRow st r1) ++
        [DedupAdd (Js.trim (nth 2 (tds r2) "") +:+ "_" +:+ uuid2);
         PipelineStart (Js.trim (nth 2 (tds r2) "") +:+ "_" +:+ uuid2) d].
Proof.
  intros Hl1 Hl2 Hp1 Hp2 Hu1 Hu2 Hdiff Hnew.
  assert (Js.trim (nth 2 (tds r2) "") +:+ "_" +:+ uuid2 ∉ processedCalls (mainRow st r1))
    as Hnew'.
  { destruct (mainRow_by_key st r1) as [->|(k & d & Hk & _ & ->)]; [done|]. simpl.
    unfold rowKey in Hk. apply Nat.ltb_lt in Hl1. rewrite Hl1, Hp1 in Hk.
    injection Hk as <-.
    intros [Hin|Hin%elem_of_singleton]%elem_of_union; [done|].
    apply callId_unambiguous in Hin as [Hc Hu]; [|done..].
    apply Hdiff. by rewrite Hc, Hu. }
  rewrite (mainRow_unfold (mainRow st r1) r2).
  apply Nat.ltb_lt in Hl2. rewrite Hl2, Hp2. cbv zeta.
  rewrite decide_False by done. simpl. by eexists.
Qed.

Lemma distinct_calls_both_start_witness :
  startedIds (events (mainRow (mainRow {| processedCalls := ∅; events := [] |} firstCallRow)
                         secondCallRow))
  = ["CLI1_uuid-a"; "CLI1_uuid-b"].
Proof.
  destruct (distinct_calls_both_start {| processedCalls := ∅; events := [] |}
              firstCallRow secondCallRow "did9" "uuid-a" "did9" "uuid-b")
    as [d Hev]; [simpl; lia | simpl; lia | reflexivity | reflexivity | reflexivity
                | reflexivity | discriminate | by vm_compute |].
  rewrite Hev. by vm_compute.
Defined.

(** ** Further properties: temporary files and message texts *)

Section MorePaths.

(** The pattern cannot start inside a text and end in an appended copy of
    itself. *)
Lemma startsWith_wav_append c r :
  Js.startsWith ".wav" (String c r) = false ->
  Js.startsWith ".wav" (String c r +:+ ".wav") = false.
Proof.
  rewrite append_cons. cbn [Js.startsWith].
  destruct (ascii_dec "." c) as [_|]; [|done].
  destruct r as [|b r]; [intros _; rewrite append_empty_l; by vm_compute|].
  rewrite append_cons. cbn [Js.startsWith].
  destruct (ascii_dec "w" b) as [_|]; [|done].
  destruct r as [|a r]; [intros _; rewrite append_empty_l; by vm_compute|].
  rewrite append_cons. cbn [Js.startsWith].
  destruct (ascii_dec "a" a) as [_|]; [|done].
  destruct r as [|v r]; [intros _; rewrite append_empty_l; by vm_compute|].
  rewrite append_cons. cbn [Js.startsWith].
  by destruct (ascii_dec "v" v).
Qed.

Lemma replace_wav_at_end stem :
  Js.includes stem ".wav" = false ->
  Js.replace (stem +:+ ".wav") ".wav" ".mp3" = stem +:+ ".mp3".
Proof.
  induction stem as [|c r IH]; [done|].
  rewrite includes_unfold. intros [Hhere Hlater]%orb_false_elim.
  rewrite replace_unfold, startsWith_wav_append by done.
  rewrite !append_cons. by rewrite IH.
Qed.

Lemma includes_prefix s needle : Js.includes (needle +:+ s) needle = true.
Proof. by rewrite includes_unfold, startsWith_append. Qed.

End MorePaths.

(** X23. The converted file never overwrites the downloaded one: its path
    always differs from the WAV path.  When neither the directory, the time
    stamp nor the caller line contains [.wav], it is the WAV path with the
    extension changed to [.mp3]. *)
Theorem mp3Path_changes_extension (env : Env) (d : CallData) :
  let stem := dirname env +:+ "/" +:+ "call_" +:+ timestamp env +:+ "_" +:+ cliNumber d in
  wavPath env d = stem +:+ ".wav" /\
  mp3Path env d <> wavPath env d /\
  (Js.includes stem ".wav" = false -> mp3Path env d = stem +:+ ".mp3").
Proof.
  intros stem.
  assert (wavPath env d = stem +:+ ".wav") as Hwav.
  { unfold wavPath, pathJoin, wavFileName. subst stem. by rewrite !append_assoc. }
  split; [done|]. split; [apply mp3Path_fresh|].
  intros Hstem. unfold mp3Path. rewrite Hwav. by apply replace_wav_at_end.
Qed.

(** X24. The instant notification and the audio caption both show the
    country as extracted and the number in its masked form. *)
Theorem messages_show_masked_number (cfg : Config) (d : CallData) :
  Js.includes (alertText cfg d) (maskNumber (number d)) = true /\
  Js.includes (alertText cfg d) (country d) = true /\
  Js.includes (audioCaption cfg d) (maskNumber (number d)) = true /\
  Js.includes (audioCaption cfg d) (country d) = true.
Proof.
  unfold alertText, audioCaption.
  repeat split;
    repeat (first [ apply includes_prefix | apply includes_append ]).
Qed.

(** X25. A pipeline never throws, and it reaches its only successful end
    only when the alert got a non-zero message id, the recording was
    downloaded and the conversion succeeded; a pipeline that lacks one of
    the three ends in [FAILED]. *)
Theorem pipeline_cleaned_only_when (cfg : Config) (env : Env) (d : CallData)
    (cookies : list (string * string)) (w : World) :
  exists t w',
    notificationPipeline cfg env d cookies w = (Ok t, w') /\
    (t = CLEANED ->
       (exists n, n ≠ 0%Z /\
          sendMessageReply env (alertText cfg d) = Resolved (ReplyResult (Some n))) /\
       isResolved (audioDownload env (audioUrl d) (cookieHeader cookies)) = true /\
       isResolved (ffmpegRun env (wavPath env d) (mp3Path env d)) = true).
Proof.
  destruct (pipeline_runs cfg env d cookies w) as (t & fs & new & Hrun & Hcases).
  exists t, {| files := fs; trace := trace w ++ new |}. split; [done|]. clear Hrun.
  destruct Hcases as [(n & newW & Hreply & Hn & -> & Hres)
                     |(Hnone & -> & -> & line & -> & Hline)]; [|done].
  unfold workerResult in Hres.
  destruct (audioDownload env (audioUrl d) (cookieHeader cookies)) as [data|e];
    [destruct (ffmpegRun env (wavPath env d) (mp3Path env d)) as [u|err]|];
    simpl; destruct Hres as (-> & _); try done.
  intros _. split; [by exists n|done].
Qed.

Section MoreTicks.

Lemma mainRows_started rows st :
  exists newIds,
    startedIds (events (fold_left mainRow rows st)) = startedIds (events st) ++ newIds /\
    newIds `sublist_of` omap rowKey rows.
Proof.
  revert st; induction rows as [|row rows IH]; intros st.
  - exists []. simpl. by rewrite app_nil_r.
  - simpl. destruct (IH (mainRow st row)) as (ids & Hids & Hsub). rewrite Hids.
    destruct (mainRow_by_key st row) as [->|(k & d & Hk & _ & ->)].
    + exists ids. split; [done|].
      destruct (rowKey row); [by apply sublist_cons|done].
    + exists (k :: ids). simpl. rewrite startedIds_app. simpl.
      rewrite <- app_assoc. split; [done|]. rewrite Hk. by apply sublist_skip.
Qed.

End MoreTicks.

(** X26. Within a tick the pipelines are started in the order of the rows:
    the call ids newly started by a snapshot are, in order, ids of some of
    its rows, and the ids started before stay in front. *)
Theorem pipelines_start_in_row_order (st : LoopState) (rows : list Row) :
  exists newIds,
    startedIds (events (mainTick st (Resolved rows))) = startedIds (events st) ++ newIds /\
    newIds `sublist_of` omap rowKey rows.
Proof.
  destruct (mainRows_started rows st) as (ids & Hids & Hsub).
  exists ids. split; [|done]. unfold mainTick. simpl.
  by rewrite startedIds_app, Hids, app_nil_r.
Qed.

(** X27. No call is missed: once the loop has gone through a readable
    snapshot, every row of it that has more than two columns and a matching
    action has had a pipeline started for its call id, in this tick or in an
    earlier one. *)
Theorem every_row_gets_a_pipeline (snapshots : list (Outcome (list Row)))
    (rows : list Row) (row : Row) (k : string) :
  row ∈ rows -> rowKey row = Some k ->
  k ∈ startedIds (events (mainLoop (snapshots ++ [Resolved rows]))).
Proof.
  intros Hin Hk.
  pose proof (processedAreStarted_loop (snapshots ++ [Resolved rows])) as Hps.
  unfold processedAreStarted in Hps.
  apply (elem_of_list_to_set (C := gset string)). rewrite <- Hps.
  unfold mainLoop. rewrite fold_left_app. simpl. unfold mainTick. simpl.
  by apply (mainRows_record rows _ row).
Qed.

Lemma every_row_gets_a_pipeline_witness :
  "CLI1_uuid9" ∈ startedIds (events (mainLoop ([Rejected badRequest] ++ [Resolved [scenarioRow]]))).
Proof.
  apply (every_row_gets_a_pipeline [Rejected badRequest] [scenarioRow] scenarioRow);
    [by apply list_elem_of_singleton | reflexivity].
Defined.
